(** * Dense matrix-vector product kernels and their benchmark drivers

    A shallow embedding of the COP5522 homework sources:

    - [src/proj1/Mv.cpp], [interchange.cpp], [proj1/unroll.cpp], [avx2.cpp],
      [optimized.cpp]: one kernel and one driver per file (double precision);
    - [src/hw1/hw1.cpp]: three kernels behind a selector (single precision);
    - [src/Mv.c] and [src/hw1/Mv.cpp]: the original C driver with raw buffers.

    The element type is abstract ([Scalar]); the C [int] is a 32-bit signed
    integer whose overflow is undefined; [std::vector::operator[]] and raw
    pointer accesses are undefined out of range.  Undefined behaviour is the
    [None] of the option monad. *)

From Stdlib Require Import String Ascii ZArith List Lia Bool QArith Qcanon.
From Equations Require Import Equations.
From AAC_tactics Require Import AAC.
Import ListNotations.
Local Open Scope Z_scope.

Set Implicit Arguments.

(** ** Undefined behaviour as an option monad *)

Definition bind {A B : Type} (m : option A) (f : A -> option B) : option B :=
  match m with
  | Some a => f a
  | None => None
  end.

Notation "x <- e ;; k" := (bind e (fun x => k))
  (at level 61, e at next level, right associativity).
Notation "' pat <- e ;; k" := (bind e (fun x => match x with pat => k end))
  (at level 61, pat pattern, e at next level, right associativity).

(** ** The C [int]: 32 bits, two's complement, overflow undefined *)

Module Int.
Definition min_int : Z := -2147483648.
Definition max_int : Z := 2147483647.

Definition fits (z : Z) : bool := (min_int <=? z) && (z <=? max_int).

Definition chk (z : Z) : option Z := if fits z then Some z else None.

Definition add (a b : Z) : option Z := chk (a + b).
Definition sub (a b : Z) : option Z := chk (a - b).
Definition mul (a b : Z) : option Z := chk (a * b).
End Int.

(** ** Element arithmetic

    [float] and [double] are used through this interface only.  [fma] is the
    fused multiply-add of [_mm256_fmadd_pd]/[_mm256_fmadd_ps] on one lane. *)

Class Scalar (T : Type) : Type := {
  zero : T;
  one : T;
  add : T -> T -> T;
  sub : T -> T -> T;
  mul : T -> T -> T;
  div : T -> T -> T;
  of_int : Z -> T;
  fma : T -> T -> T -> T
}.

(** Exact arithmetic: what the kernels need for the order of accumulation
    not to matter. *)
Class ExactArith (T : Type) {SC : Scalar T} : Prop := {
  add_comm : forall x y : T, add x y = add y x;
  add_assoc : forall x y z : T, add x (add y z) = add (add x y) z;
  add_zero_l : forall x : T, add zero x = x;
  fma_exact : forall x y z : T, fma x y z = add (mul x y) z;
  of_int_add : forall x y : Z, of_int (x + y) = add (of_int x) (of_int y);
  of_int_one : of_int 1 = one
}.

Arguments ExactArith T {SC}.

(** ** Buffers: [std::vector<T>] and [T*] blocks as lists *)

Fixpoint list_upd {T : Type} (l : list T) (i : nat) (x : T) : list T :=
  match l, i with
  | [], _ => []
  | _ :: r, O => x :: r
  | y :: r, S j => y :: list_upd r j x
  end.

Definition vec_get {T : Type} (v : list T) (i : Z) : option T :=
  if i <? 0 then None else nth_error v (Z.to_nat i).

Definition vec_set {T : Type} (v : list T) (i : Z) (x : T) : option (list T) :=
  if (0 <=? i) && (i <? Z.of_nat (length v))
  then Some (list_upd v (Z.to_nat i) x)
  else None.

(** ** Loops *)

(** [for (i = lo; i < hi; ++i) body]: [cnt] iterations starting at [i]. *)
Fixpoint for_count {S : Type} (cnt : nat) (i : Z)
    (body : Z -> S -> option S) (s : S) : option S :=
  match cnt with
  | O => Some s
  | S c => s' <- body i s ;; for_count c (i + 1) body s'
  end.

Definition for_lt {S : Type} (lo hi : Z) (body : Z -> S -> option S) (s : S)
    : option S :=
  for_count (Z.to_nat (hi - lo)) lo body s.

(** [for (; k <= bound; k += W) body]: returns the exit value of [k] together
    with the loop state, both of which the remainder loop continues from. *)
Equations? for_stride {S : Type} (W : positive) (bound : Z)
    (body : Z -> S -> option S) (k : Z) (s : S) : option (Z * S)
    by wf (Z.to_nat (bound - k + 1)) lt :=
  for_stride W bound body k s with Z_le_dec k bound := {
    | left _ with body k s := {
      | Some s' := for_stride W bound body (k + Zpos W) s'
      | None := None };
    | right _ := Some (k, s) }.
Proof. lia. Qed.

(** ** Subexpressions shared by the kernels *)

Section Access.
Context {T : Type} {SC : Scalar T}.

(** [A[i * n + k] * b[k]] *)
Definition prod (A b : list T) (n i k : Z) : option T :=
  idx <- Int.mul i n ;;
  idx <- Int.add idx k ;;
  a <- vec_get A idx ;;
  bk <- vec_get b k ;;
  Some (mul a bk).

(** [A[i * n + k + j] * b[k + j]] *)
Definition prod_off (A b : list T) (n i k j : Z) : option T :=
  idx <- Int.mul i n ;;
  idx <- Int.add idx k ;;
  idx <- Int.add idx j ;;
  a <- vec_get A idx ;;
  kj <- Int.add k j ;;
  bk <- vec_get b kj ;;
  Some (mul a bk).

(** [c[i] += A[i * n + k] * b[k]] *)
Definition accum (A b : list T) (n i k : Z) (c : list T) : option (list T) :=
  t <- prod A b n i k ;;
  ci <- vec_get c i ;;
  vec_set c i (add ci t).

(** [sum += A[i * n + k] * b[k]] *)
Definition sum_step (A b : list T) (n i k : Z) (sum : T) : option T :=
  t <- prod A b n i k ;;
  Some (add sum t).

(** A 256-bit register holds [L] lanes ([L = 4] doubles or [8] floats). *)
Definition setzero (L : nat) : list T := repeat zero L.

(** [_mm256_loadu_pd(&v[idx])]: the [L] elements from [idx] on. *)
Definition loadu (L : nat) (v : list T) (idx : Z) : option (list T) :=
  if idx <? 0 then None
  else
    let l := firstn L (skipn (Z.to_nat idx) v) in
    if Nat.eqb (length l) L then Some l else None.

(** [_mm256_fmadd_pd(a, b, c)]: lane-wise [a * b + c]. *)
Fixpoint fmadd (a b c : list T) : list T :=
  match a, b, c with
  | x :: a', y :: b', z :: c' => fma x y z :: fmadd a' b' c'
  | _, _, _ => []
  end.

(** [s[0] + s[1] + ... + s[L-1]] after [_mm256_storeu_pd(s, v)]. *)
Definition hsum (v : list T) : T :=
  match v with
  | [] => zero
  | x :: r => fold_left add r x
  end.

(** [A[i * n + k .. +L-1]] times [b[k .. +L-1]] accumulated lane-wise. *)
Definition fmadd_step (L : nat) (A b : list T) (n i k : Z) (c_vec : list T)
    : option (list T) :=
  idx <- Int.mul i n ;;
  idx <- Int.add idx k ;;
  a_vec <- loadu L A idx ;;
  b_vec <- loadu L b k ;;
  Some (fmadd a_vec b_vec c_vec).
End Access.

(** ** [src/proj1]: one kernel per file, [std::vector<double>] *)

Module Proj1.
Section Kernels.
Context {T : Type} {SC : Scalar T}.

(** [Mv.cpp], the baseline. *)
Definition Mv_mult (n : Z) (A b c : list T) : option (list T) :=
  for_lt 0 n (fun i c =>
    c <- vec_set c i zero ;;
    for_lt 0 n (fun k c => accum A b n i k c) c) c.

(** [interchange.cpp]. *)
Definition Mv_mult_interchanged (n : Z) (A b c : list T) : option (list T) :=
  c <- for_lt 0 n (fun i c => vec_set c i zero) c ;;
  for_lt 0 n (fun k c =>
    for_lt 0 n (fun i c => accum A b n i k c) c) c.

(** The body of the factor-8 loop in [unroll.cpp]. *)
Definition unroll8_step (A b : list T) (n i k : Z) (sum : T) : option T :=
  t0 <- prod A b n i k ;;
  t1 <- prod_off A b n i k 1 ;;
  t2 <- prod_off A b n i k 2 ;;
  t3 <- prod_off A b n i k 3 ;;
  t4 <- prod_off A b n i k 4 ;;
  t5 <- prod_off A b n i k 5 ;;
  t6 <- prod_off A b n i k 6 ;;
  t7 <- prod_off A b n i k 7 ;;
  Some (add sum
    (add (add (add (add (add (add (add t0 t1) t2) t3) t4) t5) t6) t7)).

(** [unroll.cpp]. *)
Definition Mv_mult_unrolled (n : Z) (A b c : list T) : option (list T) :=
  for_lt 0 n (fun i c =>
    let sum := zero in
    let k := 0 in
    bound <- Int.sub n 8 ;;
    '(k, sum) <- for_stride 8 bound (unroll8_step A b n i) k sum ;;
    sum <- for_lt k n (sum_step A b n i) sum ;;
    vec_set c i sum) c.

(** [avx2.cpp] and [optimized.cpp] (the same function in both files). *)
Definition Mv_mult_optimized (n : Z) (A b c : list T) : option (list T) :=
  for_lt 0 n (fun i c =>
    let c_vec := setzero 4 in
    let k := 0 in
    bound <- Int.sub n 4 ;;
    '(k, c_vec) <- for_stride 4 bound (fmadd_step 4 A b n i) k c_vec ;;
    let sum := hsum c_vec in
    sum <- for_lt k n (sum_step A b n i) sum ;;
    vec_set c i sum) c.
End Kernels.
End Proj1.

(** ** [src/hw1/hw1.cpp]: three kernels, [std::vector<float>] *)

Module Hw1.
Section Kernels.
Context {T : Type} {SC : Scalar T}.

(** [std::fill(C.begin(), C.end(), 0.0f)] *)
Definition fill_zero (C : list T) : list T := map (fun _ => zero) C.

(** Loop interchange (k-i loop order). *)
Definition Mv_mult_interchanged (n : Z) (A B C : list T) : option (list T) :=
  let C := fill_zero C in
  for_lt 0 n (fun k C =>
    for_lt 0 n (fun i C => accum A B n i k C) C) C.

(** The body of the factor-4 loop: four separate [sum += ...]. *)
Definition unroll4_step (A B : list T) (n i k : Z) (sum : T) : option T :=
  sum <- sum_step A B n i k sum ;;
  t1 <- prod_off A B n i k 1 ;;
  let sum := add sum t1 in
  t2 <- prod_off A B n i k 2 ;;
  let sum := add sum t2 in
  t3 <- prod_off A B n i k 3 ;;
  Some (add sum t3).

(** Loop unrolling (unroll factor of 4). *)
Definition Mv_mult_unrolled (n : Z) (A B C : list T) : option (list T) :=
  for_lt 0 n (fun i C =>
    let sum := zero in
    let k := 0 in
    bound <- Int.sub n 4 ;;
    '(k, sum) <- for_stride 4 bound (unroll4_step A B n i) k sum ;;
    sum <- for_lt k n (sum_step A B n i) sum ;;
    vec_set C i sum) C.

(** AVX2, eight [float] lanes. *)
Definition Mv_mult_avx2 (n : Z) (A B C : list T) : option (list T) :=
  for_lt 0 n (fun i C =>
    let c_vec := setzero 8 in
    let k := 0 in
    bound <- Int.sub n 8 ;;
    '(k, c_vec) <- for_stride 8 bound (fmadd_step 8 A B n i) k c_vec ;;
    let sum := hsum c_vec in
    sum <- for_lt k n (sum_step A B n i) sum ;;
    vec_set C i sum) C.
End Kernels.
End Hw1.

(** ** [src/Mv.c] and [src/hw1/Mv.cpp]: raw [float*] buffers *)

Module MvC.
Section Kernels.
Context {T : Type} {SC : Scalar T}.

(** [memset(C, 0, cnt * sizeof(C[0]))]: the first [cnt] elements become
    [0.0f]; a negative [cnt] converts to a huge [size_t]. *)
Definition memset_zero (C : list T) (cnt : Z) : option (list T) :=
  if (0 <=? cnt) && (cnt <=? Z.of_nat (length C))
  then Some (repeat zero (Z.to_nat cnt) ++ skipn (Z.to_nat cnt) C)
  else None.

(** [A[i * ACols + k]] is the same expression as in the C++ kernels. *)
Definition MatVecMult (A B C : list T) (ARows ACols : Z) : option (list T) :=
  C <- memset_zero C ARows ;;
  for_lt 0 ACols (fun k C =>
    for_lt 0 ARows (fun i C => accum A B ACols i k C) C) C.
End Kernels.
End MvC.

(** ** The process: output events, ways to stop, and the driver monad *)

Inductive outcome : Type :=
| Exit (status : Z)   (* [return status] from [main], or [exit(status)] *)
| Terminated          (* uncaught C++ exception: [std::terminate] *)
| Undefined.          (* undefined behaviour was reached *)

Inductive step (A : Type) : Type :=
| Ret (a : A)
| Halt (o : outcome).

Arguments Ret {A} a.
Arguments Halt {A} o.

Section Process.
Variable T : Type.

(** What a driver writes.  Numbers are kept as values, not as the text
    [printf]/[operator<<] would format. *)
Inductive event : Type :=
| Err (msg : string)                  (* a line on the error stream *)
| ErrAlloc (file : string) (line : Z) (* error stream: "Matrix allocation failed in file F, line L" *)
| OutN (n : Z)                        (* standard output, as all below: "n = N" *)
| OutSeconds (t : T)                  (* "Execution time: t seconds" *)
| OutChecksum (s : T)                 (* "Checksum (sum of c elements): s" *)
| OutMicros (t res perf : T)          (* "Time = t us  Timer Resolution = res us  Performance = perf Gflop/s" *)
| OutSample (x : T).                  (* "C[N/2] = x" *)

Definition prog (A : Type) : Type := (list event * step A)%type.

Definition ret {A : Type} (a : A) : prog A := ([], Ret a).
Definition halt {A : Type} (o : outcome) : prog A := ([], Halt o).
Definition emit (e : event) : prog unit := ([e], Ret tt).

Definition pbind {A B : Type} (m : prog A) (f : A -> prog B) : prog B :=
  match m with
  | (tr, Ret a) => let (tr', r) := f a in (tr ++ tr', r)
  | (tr, Halt o) => (tr, Halt o)
  end.

(** A computation that may be undefined, run inside a driver. *)
Definition lift {A : Type} (m : option A) : prog A :=
  match m with
  | Some a => ret a
  | None => halt Undefined
  end.

(** What the shell sees of [main]: the output and how the process ended. *)
Definition run (m : prog Z) : list event * outcome :=
  match m with
  | (tr, Ret status) => (tr, Exit status)
  | (tr, Halt o) => (tr, o)
  end.

End Process.

Arguments Err {T} msg.
Arguments ErrAlloc {T} file line.
Arguments OutN {T} n.
Arguments ret {T A} a.
Arguments halt {T A} o.
Arguments emit {T} e.
Arguments lift {T A} m.
Arguments run {T} m.
Arguments pbind {T A B} m f.

Notation "x <~ e ;; k" := (pbind e (fun x => k))
  (at level 61, e at next level, right associativity).
Notation "' pat <~ e ;; k" := (pbind e (fun x => match x with pat => k end))
  (at level 61, pat pattern, e at next level, right associativity).
Notation "e ;;; k" := (pbind e (fun _ => k))
  (at level 61, right associativity).

(** ** The C library's [atoi]

    Not part of the repository; written from ISO C: leading white space is
    skipped, an optional sign is read, then the longest run of decimal
    digits; no digits give 0; a value outside [int] is undefined. *)

Definition is_space (c : ascii) : bool :=
  let n := nat_of_ascii c in
  (Nat.eqb n 32 || (Nat.leb 9 n && Nat.leb n 13))%bool.

Definition digit_of (c : ascii) : option Z :=
  let n := Z.of_nat (nat_of_ascii c) in
  if (48 <=? n) && (n <=? 57) then Some (n - 48) else None.

Fixpoint skip_space (s : string) : string :=
  match s with
  | String c r => if is_space c then skip_space r else s
  | EmptyString => s
  end.

Fixpoint digits (s : string) (acc : Z) : Z :=
  match s with
  | String c r =>
      match digit_of c with
      | Some d => digits r (10 * acc + d)
      | None => acc
      end
  | EmptyString => acc
  end.

Definition atoi (s : string) : option Z :=
  match skip_space s with
  | String "-" r => Int.chk (- digits r 0)
  | String "+" r => Int.chk (digits r 0)
  | r => Int.chk (digits r 0)
  end.

(** [argv[j]] *)
Definition arg (argv : list string) (j : nat) : string := nth j argv EmptyString.

(** [std::vector<T> v(size)]: [size] value-initialised elements; a negative
    [int] converts to a [size_t] beyond [max_size()] and the constructor
    throws [std::length_error], which no driver catches.  Memory is taken to
    be sufficient for every non-negative size. *)
Definition vector_new {T : Type} {SC : Scalar T} (size : Z) : prog T (list T) :=
  if size <? 0 then halt Terminated else ret (repeat zero (Z.to_nat size)).

(** [for (i = 0; i < n; ++i) sum_c += c[i]] *)
Definition checksum {T : Type} {SC : Scalar T} (n : Z) (c : list T) : option T :=
  for_lt 0 n (fun i sum_c => ci <- vec_get c i ;; Some (add sum_c ci)) zero.

(** ** Drivers of [src/proj1]

    The five files have the same [main] up to the kernel it calls. *)

Module Proj1Main.
Section Driver.
Context {T : Type} {SC : Scalar T}.

(** [b[i] = 1.0 / (i + 1.0); A[i * n + j] = 1.0 / (i + j + 2.0)] *)
Definition generate (n : Z) (A b : list T) : option (list T * list T) :=
  for_lt 0 n (fun i '(A, b) =>
    b <- vec_set b i (div one (add (of_int i) one)) ;;
    A <- for_lt 0 n (fun j A =>
           idx <- Int.mul i n ;;
           idx <- Int.add idx j ;;
           ij <- Int.add i j ;;
           vec_set A idx (div one (add (of_int ij) (of_int 2)))) A ;;
    Some (A, b)) (A, b).

(** [clock j] is the [j]-th reading of [high_resolution_clock::now()],
    in seconds. *)
Definition main (kernel : Z -> list T -> list T -> list T -> option (list T))
    (clock : nat -> T) (argv : list string) : prog T Z :=
  if negb (Nat.eqb (length argv) 2) then
    emit (Err ("Usage: " ++ arg argv 0 ++ " <matrix_size_n>")%string) ;;;
    ret 1
  else
    n <~ lift (atoi (arg argv 1)) ;;
    if n <=? 0 then
      emit (Err "Matrix size must be a positive integer.") ;;;
      ret 1
    else
      nn <~ lift (Int.mul n n) ;;
      A <~ vector_new nn ;;
      b <~ vector_new n ;;
      c <~ vector_new n ;;
      '(A, b) <~ lift (generate n A b) ;;
      let start := clock 0%nat in
      c <~ lift (kernel n A b c) ;;
      let stop := clock 1%nat in
      let diff := sub stop start in
      emit (OutN n) ;;;
      emit (OutSeconds diff) ;;;
      sum_c <~ lift (checksum n c) ;;
      emit (OutChecksum sum_c) ;;;
      ret 0.

Definition main_Mv := main Proj1.Mv_mult.
Definition main_interchange := main Proj1.Mv_mult_interchanged.
Definition main_unroll := main Proj1.Mv_mult_unrolled.
Definition main_avx2 := main Proj1.Mv_mult_optimized.
Definition main_optimized := main Proj1.Mv_mult_optimized.
End Driver.
End Proj1Main.

(** ** Driver of [src/hw1/hw1.cpp] *)

Module Hw1Main.
Section Driver.
Context {T : Type} {SC : Scalar T}.

Definition usage_lines (prog_name : string) : list string :=
  [ ("Usage: " ++ prog_name ++ " [optimization_type] <matrix_size_n>")%string;
    "  <optimization_type> is optional and defaults to 'avx2'."%string;
    "Optimization types:"%string;
    "  baseline    - Standard i-k loop implementation"%string;
    "  avx2        - AVX2 SIMD optimization"%string;
    "  unroll      - Loop unrolling optimization"%string;
    "  interchange - Loop interchange (demonstrates cache effects)"%string ].

Definition print_usage (prog_name : string) : prog T unit :=
  (map Err (usage_lines prog_name), Ret tt).

(** [B[i] = 1.0f / (i + 2.0f); A[i * n + j] = 1.0f / (i + j + 2.0f)] *)
Definition generate (n : Z) (A B : list T) : option (list T * list T) :=
  for_lt 0 n (fun i '(A, B) =>
    B <- vec_set B i (div one (add (of_int i) (of_int 2))) ;;
    A <- for_lt 0 n (fun j A =>
           idx <- Int.mul i n ;;
           idx <- Int.add idx j ;;
           ij <- Int.add i j ;;
           vec_set A idx (div one (add (of_int ij) (of_int 2)))) A ;;
    Some (A, B)) (A, B).

(** [2.0 * n * n * 1e-3 / t] *)
Definition gflops (n : Z) (t : T) : T :=
  div (mul (mul (mul (of_int 2) (of_int n)) (of_int n))
           (div one (of_int 1000))) t.

(** [get_microtime_resolution()] *)
Definition get_microtime_resolution : T := one.

(** [clock j] is the [j]-th value returned by [microtime()], in
    microseconds. *)
Definition main (clock : nat -> T) (argv : list string) : prog T Z :=
  '(opt_type, n) <~
    (if Nat.eqb (length argv) 2 then
       n <~ lift (atoi (arg argv 1)) ;;
       ret ("avx2"%string, n)
     else if Nat.eqb (length argv) 3 then
       n <~ lift (atoi (arg argv 2)) ;;
       ret (arg argv 1, n)
     else
       print_usage (arg argv 0) ;;;
       halt (Exit 1)) ;;
  nn <~ lift (Int.mul n n) ;;
  A <~ vector_new nn ;;
  B <~ vector_new n ;;
  C <~ vector_new n ;;
  '(A, B) <~ lift (generate n A B) ;;
  let time1 := clock 0%nat in
  C <~ (if String.eqb opt_type "avx2" then
          lift (Hw1.Mv_mult_avx2 n A B C)
        else if String.eqb opt_type "unroll" then
          lift (Hw1.Mv_mult_unrolled n A B C)
        else if String.eqb opt_type "interchange" then
          lift (Hw1.Mv_mult_interchanged n A B C)
        else
          emit (Err ("Error: Unknown optimization type '" ++ opt_type ++ "'")%string) ;;;
          print_usage (arg argv 0) ;;;
          halt (Exit 1)) ;;
  let time2 := clock 1%nat in
  let t := sub time2 time1 in
  emit (OutMicros t get_microtime_resolution (gflops n t)) ;;;
  x <~ lift (vec_get C (Z.quot n 2)) ;;
  emit (OutSample x) ;;;
  ret 0.
End Driver.
End Hw1Main.

(** ** Driver of [src/Mv.c] (and its C++ transcription [src/hw1/Mv.cpp]) *)

Module MvCMain.
Section Driver.
Context {T : Type} {SC : Scalar T}.

(** A [Matrix] is a [float*]: null, or the address of a block. *)
Inductive Matrix : Type :=
| Null
| Block (cells : list T).

(** Using the pointer; a null pointer has no block to use. *)
Definition deref (M : Matrix) : option (list T) :=
  match M with
  | Null => None
  | Block v => Some v
  end.

(** The allocator: whether the [j]-th request succeeds, and what the
    fresh, uninitialised block holds. *)
Record heap : Type := {
  alloc_ok : nat -> bool;
  junk : nat -> nat -> T
}.

(** [malloc(cells * sizeof(float))] as the [j]-th request.  A negative
    [int] converts to a [size_t] no allocator can serve. *)
Definition malloc (h : heap) (j : nat) (cells : Z) : Matrix :=
  if cells <? 0 then Null
  else if alloc_ok h j then Block (map (junk h j) (seq 0 (Z.to_nat cells)))
  else Null.

(** [file] and [line] are [__FILE__] and [__LINE__] at the report. *)
Definition CreateMatrix (file : string) (line : Z) (h : heap) (j : nat)
    (Rows Cols : Z) : prog T Matrix :=
  cells <~ lift (Int.mul Rows Cols) ;;
  let M := malloc h j cells in
  match M with
  | Null => emit (ErrAlloc file line) ;;; ret M
  | Block _ => ret M
  end.

(** [A[i * Cols + j] = 1.0 / (i + j + 2)] *)
Definition InitMatrix (A : Matrix) (Rows Cols : Z) : option Matrix :=
  for_lt 0 Rows (fun i A =>
    for_lt 0 Cols (fun j A =>
      idx <- Int.mul i Cols ;;
      idx <- Int.add idx j ;;
      ij <- Int.add i j ;;
      ij2 <- Int.add ij 2 ;;
      v <- deref A ;;
      v <- vec_set v idx (div one (of_int ij2)) ;;
      Some (Block v)) A) A.

(** [memset(C, 0, cnt * sizeof(C[0]))] through the pointer. *)
Definition memset (C : Matrix) (cnt : Z) : option Matrix :=
  v <- deref C ;;
  v <- MvC.memset_zero v cnt ;;
  Some (Block v).

(** [MatVecMult] as [main] calls it, on pointers. *)
Definition MatVecMult (A B C : Matrix) (ARows ACols : Z) : option Matrix :=
  C <- memset C ARows ;;
  for_lt 0 ACols (fun k C =>
    for_lt 0 ARows (fun i C =>
      a <- deref A ;;
      b <- deref B ;;
      c <- deref C ;;
      c <- accum a b ACols i k c ;;
      Some (Block c)) C) C.

(** [2.0*N*N*1e-3/t] *)
Definition gflops (N : Z) (t : T) : T :=
  div (mul (mul (mul (of_int 2) (of_int N)) (of_int N))
           (div one (of_int 1000))) t.

(** [clock j] is the [j]-th value of [microtime()], in microseconds;
    [resolution] is [get_microtime_resolution()].  [Mv.c] takes both functions
    from [microtime.h], which is not among the sources, so they are parameters
    here; [hw1/Mv.cpp] defines them itself.  The closing [FreeMatrix] calls
    release the blocks and leave no trace in the output. *)
Definition main (file : string) (line : Z) (h : heap) (clock : nat -> T)
    (resolution : T) (argv : list string) : prog T Z :=
  (if negb (Nat.eqb (length argv) 2) then
     emit (Err ("USAGE: " ++ arg argv 0 ++ " Matrix-Dimension")%string) ;;;
     halt (Exit 1)
   else ret tt) ;;;
  N <~ lift (atoi (arg argv 1)) ;;
  let M := N in
  let P := 1 in
  A <~ CreateMatrix file line h 0 N M ;;
  B <~ CreateMatrix file line h 1 M P ;;
  C <~ CreateMatrix file line h 2 N P ;;
  A <~ lift (InitMatrix A N M) ;;
  B <~ lift (InitMatrix B M P) ;;
  C <~ lift (NP <- Int.mul N P ;; memset C NP) ;;
  let time1 := clock 0%nat in
  C <~ lift (MatVecMult A B C N M) ;;
  let time2 := clock 1%nat in
  let t := sub time2 time1 in
  emit (OutMicros t resolution (gflops N t)) ;;;
  x <~ lift (c <- deref C ;; vec_get c (Z.quot N 2)) ;;
  emit (OutSample x) ;;;
  ret 0.

(** [src/Mv.c] reports at line 16, [src/hw1/Mv.cpp] at line 27 and with a
    resolution of one microsecond. *)
Definition main_c := main "Mv.c" 16.
Definition main_cpp (h : heap) (clock : nat -> T) := main "Mv.cpp" 27 h clock one.
End Driver.
End MvCMain.

(** ** Exact rationals as elements *)

#[export] Instance Qc_Scalar : Scalar Qc := {
  zero := 0%Qc;
  one := 1%Qc;
  add := Qcplus;
  sub := Qcminus;
  mul := Qcmult;
  div := Qcdiv;
  of_int := fun z => Q2Qc (inject_Z z);
  fma := fun x y z => Qcplus (Qcmult x y) z
}.

(** The specification's throughput, [2 N^2 10^-9 / elapsed_seconds] GFLOP/s,
    for an elapsed time of [t_us] microseconds. *)
Definition spec_gflops (n : Z) (t_us : Qc) : Qc :=
  div (mul (mul (mul (of_int 2) (of_int n)) (of_int n))
           (div one (of_int 1000000000)))
      (mul t_us (div one (of_int 1000000))).

(** A vector of whole rationals. *)
Definition rationals (l : list Z) : list Qc := map of_int l.

(** ** The specification's product

    [c[i] = sum_k A[i][k] * b[k]], summed for [k = 0, 1, ..., n-1] in that
    order starting from zero. *)

Section Spec.
Context {T : Type} {SC : Scalar T}.

(** [v[i]], zero where [v] has no such element. *)
Definition elt (v : list T) (i : Z) : T :=
  match vec_get v i with
  | Some x => x
  | None => zero
  end.

(** The term [A[i][k] * b[k]] of row [i]. *)
Definition term (A b : list T) (n i k : Z) : T :=
  mul (elt A (i * n + k)) (elt b k).

(** [s + f lo + f (lo+1) + ... + f (lo+cnt-1)], added left to right. *)
Fixpoint sigma_from (s : T) (f : Z -> T) (lo : Z) (cnt : nat) : T :=
  match cnt with
  | O => s
  | S c => add (sigma_from s f lo c) (f (lo + Z.of_nat c))
  end.

Definition sigma (f : Z -> T) (lo : Z) (cnt : nat) : T :=
  sigma_from zero f lo cnt.

(** Row [i] of the product: the sum over [k] in [0, n) of [A[i*n+k] * b[k]]. *)
Definition dot_row (A b : list T) (n i : Z) : T :=
  sigma (term A b n i) 0 (Z.to_nat n).

(** The vector [h 0, h 1, ..., h (n-1)]. *)
Definition tabulate (n : Z) (h : Z -> T) : list T :=
  map (fun i => h (Z.of_nat i)) (seq 0 (Z.to_nat n)).

(** The whole product, rows [0 .. n-1]. *)
Definition product (A b : list T) (n : Z) : list T :=
  tabulate n (dot_row A b n).

(** [c] has [n] elements, and [c[m]] is [h m] for the rows [m] below [j]. *)
Definition filled_to (n : Z) (h : Z -> T) (j : Z) (c : list T) : Prop :=
  Z.of_nat (length c) = n /\
  forall m, 0 <= m < j -> vec_get c m = Some (h m).
End Spec.

(** ** The kernel variants of the repository *)

Inductive variant : Type :=
| Baseline          (* proj1/Mv.cpp *)
| Interchanged      (* proj1/interchange.cpp *)
| Unrolled8         (* proj1/proj1/unroll.cpp *)
| Vectorized4       (* proj1/avx2.cpp, proj1/optimized.cpp *)
| Interchanged_hw1  (* hw1/hw1.cpp *)
| Unrolled4         (* hw1/hw1.cpp *)
| Vectorized8       (* hw1/hw1.cpp *)
| MatVecMult_c.     (* Mv.c, hw1/Mv.cpp *)

Definition kernel {T : Type} {SC : Scalar T} (v : variant)
    (n : Z) (A b c : list T) : option (list T) :=
  match v with
  | Baseline => Proj1.Mv_mult n A b c
  | Interchanged => Proj1.Mv_mult_interchanged n A b c
  | Unrolled8 => Proj1.Mv_mult_unrolled n A b c
  | Vectorized4 => Proj1.Mv_mult_optimized n A b c
  | Interchanged_hw1 => Hw1.Mv_mult_interchanged n A b c
  | Unrolled4 => Hw1.Mv_mult_unrolled n A b c
  | Vectorized8 => Hw1.Mv_mult_avx2 n A b c
  | MatVecMult_c => MvC.MatVecMult A b c n n
  end.

(** ** The rows of the unrolled kernels, as the specification splits them *)

Section SplitSpec.
Context {T : Type} {SC : Scalar T}.




End SplitSpec.

(** Two outcomes of a computation that may be undefined are related: both
    undefined, or both defined with related values. *)
Definition both {S : Type} (R : S -> S -> Prop) (o1 o2 : option S) : Prop :=
  match o1, o2 with
  | Some x, Some y => R x y
  | None, None => True
  | _, _ => False
  end.

(** Two vectors of [n] elements with the same elements below [j]. *)
Definition agree_to {T : Type} (n : Z) (j : Z) (c1 c2 : list T) : Prop :=
  Z.of_nat (length c1) = n /\ Z.of_nat (length c2) = n /\
  forall m, 0 <= m < j -> vec_get c1 m = vec_get c2 m.

(** The largest dimension whose indices [i * n + k] all fit an [int]:
    [46340 * 46340 <= 2^31 < 46341 * 46341]. *)
Definition max_dim : Z := 46340.

(** ** Further vocabulary for the kernels *)

(** The variants that add the terms of a row to the running sum one at a
    time, in the order of [k]: the baseline, the interchanged loop nests and
    the four-statement unrolling of [hw1.cpp].  The factor-8 unrolling adds
    eight terms to each other first, and the AVX2 kernels keep one partial
    sum per lane. *)
Definition order_preserving (v : variant) : bool :=
  match v with
  | Baseline | Interchanged | Interchanged_hw1 | Unrolled4 | MatVecMult_c => true
  | Unrolled8 | Vectorized4 | Vectorized8 => false
  end.

(** The elements of a row that one iteration of the row's main loop takes. *)
Definition stride (v : variant) : Z :=
  match v with
  | Unrolled8 | Vectorized8 => 8
  | Vectorized4 | Unrolled4 => 4
  | Baseline | Interchanged | Interchanged_hw1 | MatVecMult_c => 1
  end.

(** What a kernel makes of the output vector before its loops: [hw1.cpp]'s
    interchanged kernel clears all of it ([std::fill] from [begin] to [end]);
    the others clear or overwrite rows [0 .. n-1] only. *)
Definition outside_rows {T : Type} {SC : Scalar T} (v : variant) (c : list T)
    : list T :=
  match v with
  | Interchanged_hw1 => Hw1.fill_zero c
  | _ => c
  end.

(** [c'] has the length of [c] and its elements from index [n] on. *)
Definition same_outside {T : Type} (n : Z) (c c' : list T) : Prop :=
  length c' = length c /\ forall m, n <= m -> vec_get c' m = vec_get c m.

(** Position [p] of row [i] lies outside [A] or outside [b]. *)
Definition missing {T : Type} (A b : list T) (n i p : Z) : Prop :=
  0 <= i /\ 0 <= p /\
  (Z.of_nat (length b) <= p \/ Z.of_nat (length A) <= i * n + p).

(** ** What the generators leave in the buffers

    The value each generator stores at the flat index [p = i * n + j] of [A]
    and at [i] of [b], as the sources compute it. *)

Section Generated.
Context {T : Type} {SC : Scalar T}.

(** [1.0 / (i + j + 2.0)] of the C++ drivers. *)
Definition gen_A (n : Z) : list T :=
  tabulate (n * n) (fun p => div one (add (of_int (p / n + p mod n)) (of_int 2))).

(** [1.0 / (i + 1.0)] of [src/proj1]. *)
Definition gen_b1 (n : Z) : list T :=
  tabulate n (fun i => div one (add (of_int i) one)).

(** [1.0f / (i + 2.0f)] of [hw1.cpp]. *)
Definition gen_b2 (n : Z) : list T :=
  tabulate n (fun i => div one (add (of_int i) (of_int 2))).

(** [1.0 / (i + j + 2)] of [InitMatrix], on an [n x n] and an [n x 1] matrix. *)
Definition gen_A_c (n : Z) : list T :=
  tabulate (n * n) (fun p => div one (of_int (p / n + p mod n + 2))).

Definition gen_b_c (n : Z) : list T :=
  tabulate n (fun i => div one (of_int (i + 0 + 2))).

(** What a [src/proj1] driver prints once its kernel has returned [r]. *)
Definition proj1_report (clock : nat -> T) (n : Z) (r : option (list T))
    : list (event T) * outcome :=
  match r with
  | None => ([], Undefined)
  | Some c =>
      let diff := sub (clock 1%nat) (clock 0%nat) in
      match checksum n c with
      | Some sum_c => ([OutN n; OutSeconds diff; OutChecksum sum_c], Exit 0)
      | None => ([OutN n; OutSeconds diff], Undefined)
      end
  end.

(** What [hw1.cpp] and [Mv.c] print once the kernel has returned [r];
    [perf] is the driver's throughput expression. *)
Definition micros_report (clock : nat -> T) (resolution : T) (perf : Z -> T -> T)
    (n : Z) (r : option (list T)) : list (event T) * outcome :=
  match r with
  | None => ([], Undefined)
  | Some c =>
      let t := sub (clock 1%nat) (clock 0%nat) in
      match vec_get c (Z.quot n 2) with
      | Some x => ([OutMicros t resolution (perf n t); OutSample x], Exit 0)
      | None => ([OutMicros t resolution (perf n t)], Undefined)
      end
  end.

(** The checksum or sample values in a driver's output. *)
Definition is_checksum (e : event T) : bool :=
  match e with
  | OutChecksum _ | OutSample _ => true
  | _ => false
  end.

Definition checksums_of (tr : list (event T)) : list (event T) :=
  filter is_checksum tr.

(** Whether the output reports a throughput. *)
Definition is_throughput (e : event T) : bool :=
  match e with
  | OutMicros _ _ _ => true
  | _ => false
  end.

(** The outcome and the checksum values of two runs are the same. *)
Definition same_checksums (r1 r2 : list (event T) * outcome) : Prop :=
  snd r1 = snd r2 /\ checksums_of (fst r1) = checksums_of (fst r2).


End Generated.

(** ** Environments used to run the drivers on concrete command lines *)

(** An allocator that serves every request, with [junk] in the fresh blocks. *)
Definition heap_serving {T : Type} (junk : nat -> nat -> T) : @MvCMain.heap T :=
  {| MvCMain.alloc_ok := fun _ => true; MvCMain.junk := junk |}.

(** An allocator whose [k]-th request fails. *)
Definition heap_failing {T : Type} (k : nat) (junk : nat -> nat -> T)
    : @MvCMain.heap T :=
  {| MvCMain.alloc_ok := fun j => negb (Nat.eqb j k); MvCMain.junk := junk |}.

(** The diagnostics of [CreateMatrix] for the three buffers of [main]. *)
Definition alloc_errors {T : Type} (file : string) (line : Z)
    (h : @MvCMain.heap T) : list (event T) :=
  map (fun _ => ErrAlloc file line)
      (filter (fun j => negb (MvCMain.alloc_ok h j)) [0; 1; 2]%nat).

(** A clock that reads [j] at its [j]-th reading. *)
Definition ticks : nat -> Qc := fun j => of_int (Z.of_nat j).

(** The first dimension past [max_dim], with zeroed buffers of the sizes a
    driver would hand to a kernel. *)
Definition first_bad_dim : Z := 46341.
Definition zeros_A : list Qc := repeat 0%Qc (Z.to_nat (first_bad_dim * first_bad_dim)).
Definition zeros_b : list Qc := repeat 0%Qc (Z.to_nat first_bad_dim).

(** * Proofs *)

(** ** The monad, [int] and buffers *)

Lemma bind_Some {A B : Type} (m : option A) (f : A -> option B) (b : B) :
  bind m f = Some b -> exists a, m = Some a /\ f a = Some b.
Proof. destruct m as [a|]; simpl; intros E; [eauto | discriminate]. Qed.

Lemma bind_None_r {A B : Type} (m : option A) (f : A -> option B) :
  (forall a, f a = None) -> bind m f = None.
Proof. intros E. destruct m; simpl; auto. Qed.

Lemma chk_fits z : Int.min_int <= z <= Int.max_int -> Int.chk z = Some z.
Proof.
  intros [L U]. unfold Int.chk, Int.fits.
  apply Z.leb_le in L. apply Z.leb_le in U. now rewrite L, U.
Qed.

Lemma chk_above z : Int.max_int < z -> Int.chk z = None.
Proof.
  intros U. unfold Int.chk, Int.fits.
  apply Z.leb_gt in U. rewrite U. now rewrite andb_false_r.
Qed.

Lemma chk_Some z r : Int.chk z = Some r -> r = z /\ Int.min_int <= z <= Int.max_int.
Proof.
  unfold Int.chk, Int.fits. destruct (Int.min_int <=? z) eqn:L; simpl;
    [destruct (z <=? Int.max_int) eqn:U |]; try discriminate.
  intros E. injection E as <-. apply Z.leb_le in L. apply Z.leb_le in U. auto.
Qed.

Lemma length_list_upd {T : Type} (l : list T) i x :
  length (list_upd l i x) = length l.
Proof.
  revert i. induction l as [|y l IH]; intros [|i]; simpl; auto.
Qed.

Lemma nth_error_list_upd_eq {T : Type} (l : list T) i x :
  (i < length l)%nat -> nth_error (list_upd l i x) i = Some x.
Proof.
  revert i. induction l as [|y l IH]; intros [|i]; simpl; intros H;
    try lia; auto. apply IH. lia.
Qed.

Lemma nth_error_list_upd_neq {T : Type} (l : list T) i j x :
  i <> j -> nth_error (list_upd l i x) j = nth_error l j.
Proof.
  revert i j. induction l as [|y l IH]; intros [|i] [|j]; simpl; intros H;
    auto; try congruence.
Qed.

Lemma list_upd_twice {T : Type} (l : list T) i x y :
  list_upd (list_upd l i x) i y = list_upd l i y.
Proof.
  revert i. induction l as [|z l IH]; intros [|i]; simpl; auto.
  now rewrite IH.
Qed.

Lemma vec_get_Some {T : Type} (v : list T) i x :
  vec_get v i = Some x -> 0 <= i < Z.of_nat (length v).
Proof.
  unfold vec_get. destruct (i <? 0) eqn:E; [discriminate|].
  apply Z.ltb_ge in E. intros H.
  assert (Z.to_nat i < length v)%nat by (apply nth_error_Some; congruence).
  lia.
Qed.

Lemma vec_get_in_range {T : Type} (v : list T) i :
  0 <= i < Z.of_nat (length v) -> exists x, vec_get v i = Some x.
Proof.
  intros [L U]. unfold vec_get.
  apply Z.ltb_ge in L. rewrite L.
  destruct (nth_error v (Z.to_nat i)) eqn:E; [eauto|].
  apply nth_error_None in E. apply Z.ltb_ge in L. lia.
Qed.

Lemma vec_set_in_range {T : Type} (v : list T) i x :
  0 <= i < Z.of_nat (length v) ->
  vec_set v i x = Some (list_upd v (Z.to_nat i) x).
Proof.
  intros [L U]. unfold vec_set.
  apply Z.leb_le in L. apply Z.ltb_lt in U. now rewrite L, U.
Qed.

Lemma vec_get_list_upd_eq {T : Type} (v : list T) i x :
  0 <= i < Z.of_nat (length v) ->
  vec_get (list_upd v (Z.to_nat i) x) i = Some x.
Proof.
  intros [L U]. unfold vec_get. apply Z.ltb_ge in L. rewrite L.
  apply nth_error_list_upd_eq. apply Z.ltb_ge in L. lia.
Qed.

Lemma vec_get_list_upd_neq {T : Type} (v : list T) i j x :
  0 <= i -> 0 <= j -> i <> j ->
  vec_get (list_upd v (Z.to_nat i) x) j = vec_get v j.
Proof.
  intros Hi Hj N. unfold vec_get. destruct (j <? 0); auto.
  apply nth_error_list_upd_neq. lia.
Qed.

(** ** Counting loops *)

Lemma for_count_S {S : Type} cnt i (body : Z -> S -> option S) s :
  for_count (Datatypes.S cnt) i body s =
  (s' <- for_count cnt i body s ;; body (i + Z.of_nat cnt) s').
Proof.
  revert i s. induction cnt as [|c IH]; intros i s.
  - simpl. rewrite Z.add_0_r. destruct (body i s); reflexivity.
  - change (for_count (Datatypes.S (Datatypes.S c)) i body s)
      with (s' <- body i s ;; for_count (Datatypes.S c) (i + 1) body s').
    change (for_count (Datatypes.S c) i body s)
      with (s' <- body i s ;; for_count c (i + 1) body s').
    destruct (body i s) as [s1|]; cbn [bind]; [|reflexivity].
    rewrite IH. replace (i + 1 + Z.of_nat c) with (i + Z.of_nat (Datatypes.S c)) by lia.
    reflexivity.
Qed.

(** A loop invariant indexed by the number of iterations done. *)
Lemma for_count_inv {S : Type} (I : nat -> S -> Prop) cnt i
    (body : Z -> S -> option S) s :
  I O s ->
  (forall j s, (j < cnt)%nat -> I j s ->
     exists s', body (i + Z.of_nat j) s = Some s' /\ I (Datatypes.S j) s') ->
  exists s', for_count cnt i body s = Some s' /\ I cnt s'.
Proof.
  intros H0 Hstep. induction cnt as [|c IH].
  - exists s. auto.
  - destruct IH as [s1 [E1 I1]]; [intros; apply Hstep; auto; lia|].
    destruct (Hstep c s1) as [s2 [E2 I2]]; auto.
    exists s2. rewrite for_count_S, E1. simpl. auto.
Qed.

(** One iteration that cannot succeed makes the whole loop undefined. *)
Lemma for_count_None {S : Type} cnt i (body : Z -> S -> option S) s j :
  (j < cnt)%nat -> (forall s, body (i + Z.of_nat j) s = None) ->
  for_count cnt i body s = None.
Proof.
  revert i s j. induction cnt as [|c IH]; intros i s j Hj Hb; [lia|].
  simpl. destruct j as [|j].
  - rewrite Z.add_0_r in Hb. now rewrite Hb.
  - destruct (body i s) as [s1|]; simpl; [|reflexivity].
    apply (IH _ _ j); [lia|]. intros s2.
    rewrite <- (Hb s2). f_equal. lia.
Qed.

Lemma for_lt_None {S : Type} lo hi (body : Z -> S -> option S) s k :
  lo <= k < hi -> (forall s, body k s = None) -> for_lt lo hi body s = None.
Proof.
  intros Hk Hb. unfold for_lt.
  apply for_count_None with (j := Z.to_nat (k - lo)); [lia|].
  intros s'. replace (lo + Z.of_nat (Z.to_nat (k - lo))) with k by lia. auto.
Qed.

Lemma for_lt_empty {S : Type} lo hi (body : Z -> S -> option S) s :
  hi <= lo -> for_lt lo hi body s = Some s.
Proof.
  intros H. unfold for_lt. replace (Z.to_nat (hi - lo)) with O by lia.
  reflexivity.
Qed.

(** ** Strided loops *)

Lemma for_stride_eq {S : Type} W bound (body : Z -> S -> option S) k s :
  for_stride W bound body k s =
  if k <=? bound
  then s' <- body k s ;; for_stride W bound body (k + Zpos W) s'
  else Some (k, s).
Proof.
  simp for_stride. destruct (Z_le_dec k bound) as [L|G]; simpl.
  - assert (E : (k <=? bound) = true) by (apply Z.leb_le; exact L).
    rewrite E. destruct (body k s); reflexivity.
  - assert (E : (k <=? bound) = false) by (apply Z.leb_gt; lia).
    now rewrite E.
Qed.

(** A loop invariant for the strided loop; on exit the bound is passed. *)
Lemma for_stride_inv {S : Type} (I : Z -> S -> Prop) W bound
    (body : Z -> S -> option S) k s :
  I k s ->
  (forall k s, I k s -> k <= bound ->
     exists s', body k s = Some s' /\ I (k + Zpos W) s') ->
  exists k' s', for_stride W bound body k s = Some (k', s') /\ I k' s' /\ bound < k'.
Proof.
  intros H0 Hstep.
  remember (Z.to_nat (bound - k + 1)) as m eqn:Em.
  revert k s H0 Em. induction m as [m IH] using lt_wf_ind. intros k s H0 Em.
  rewrite for_stride_eq. destruct (k <=? bound) eqn:E.
  - apply Z.leb_le in E. destruct (Hstep k s H0 E) as [s1 [E1 I1]].
    rewrite E1. cbn [bind].
    apply (IH (Z.to_nat (bound - (k + Zpos W) + 1))); auto. lia.
  - apply Z.leb_gt in E. exists k, s. auto.
Qed.

(** Where the strided loop stops, whatever its body does. *)
Lemma for_stride_exit {S : Type} W bound (body : Z -> S -> option S) k s k' s' :
  for_stride W bound body k s = Some (k', s') ->
  bound < k' /\ k <= k' /\ (k' - k) mod Zpos W = 0 /\
  (k' = k \/ k' - Zpos W <= bound).
Proof.
  remember (Z.to_nat (bound - k + 1)) as m eqn:Em.
  revert k s Em. induction m as [m IH] using lt_wf_ind. intros k s Em.
  rewrite for_stride_eq. destruct (k <=? bound) eqn:E.
  - apply Z.leb_le in E. intros H.
    apply bind_Some in H. destruct H as [s1 [_ H]].
    apply (IH (Z.to_nat (bound - (k + Zpos W) + 1))) in H; [|lia|reflexivity].
    destruct H as (H1 & H2 & H3 & H4).
    repeat split; auto; try lia.
    replace (k' - k) with (k' - (k + Zpos W) + 1 * Zpos W) by lia.
    now rewrite Z.mod_add by lia.
  - apply Z.leb_gt in E. intros H. injection H as <- <-.
    rewrite Z.sub_diag. repeat split; auto; lia.
Qed.

(** ** The accesses [A[i * n + k]] and [b[k]] *)

Section AccessFacts.
Context {T : Type} {SC : Scalar T}.

Lemma vec_get_elt (v : list T) i :
  0 <= i < Z.of_nat (length v) -> vec_get v i = Some (elt v i).
Proof.
  intros H. unfold elt. destruct (vec_get_in_range v H) as [x E].
  now rewrite E.
Qed.

(** Past the largest dimension the last index of the last row overflows. *)
Lemma prod_overflow (A b : list T) n :
  max_dim < n -> prod A b n (n - 1) (n - 1) = None.
Proof.
  intros H. unfold prod, Int.mul, Int.add.
  destruct (Int.chk ((n - 1) * n)) as [r|] eqn:E; [|reflexivity].
  apply chk_Some in E. destruct E as [-> _]. cbn [bind].
  rewrite chk_above; [reflexivity|].
  unfold max_dim, Int.max_int in *. nia.
Qed.

(** From dimension 46342 on, the row offset of the last row overflows. *)
Lemma row_offset_overflow n : max_dim + 1 < n -> Int.mul (n - 1) n = None.
Proof.
  intros H. unfold Int.mul. apply chk_above.
  unfold max_dim, Int.max_int in *. nia.
Qed.

Lemma index_fits n i k :
  0 <= n <= max_dim -> 0 <= i < n -> 0 <= k < n ->
  0 <= i * n + k < n * n /\ i * n + k <= Int.max_int /\ 0 <= i * n <= Int.max_int.
Proof.
  intros Hn Hi Hk. unfold max_dim, Int.max_int in *. nia.
Qed.

Section InRange.
Variables (n : Z) (A b : list T).
Hypothesis Hn : 0 <= n <= max_dim.
Hypothesis HA : Z.of_nat (length A) = n * n.
Hypothesis Hb : Z.of_nat (length b) = n.

Lemma prod_ok i k :
  0 <= i < n -> 0 <= k < n -> prod A b n i k = Some (term A b n i k).
Proof.
  intros Hi Hk. destruct (index_fits Hn Hi Hk) as (H1 & H2 & H3).
  unfold prod, term, Int.mul, Int.add.
  rewrite chk_fits by (unfold Int.min_int; lia). cbn [bind].
  rewrite chk_fits by (unfold Int.min_int; lia). cbn [bind].
  rewrite vec_get_elt by lia. cbn [bind].
  rewrite vec_get_elt by lia. reflexivity.
Qed.

Lemma prod_off_ok i k j :
  0 <= i < n -> 0 <= k -> 0 <= j -> k + j < n ->
  prod_off A b n i k j = Some (term A b n i (k + j)).
Proof.
  intros Hi Hk Hj Hkj.
  assert (Hk' : 0 <= k < n) by lia.
  assert (Hkj' : 0 <= k + j < n) by lia.
  destruct (index_fits Hn Hi Hk') as (H1 & H2 & H3).
  destruct (index_fits Hn Hi Hkj') as (H4 & H5 & _).
  unfold prod_off, term, Int.mul, Int.add.
  rewrite chk_fits by (unfold Int.min_int; lia). cbn [bind].
  rewrite chk_fits by (unfold Int.min_int; lia). cbn [bind].
  rewrite chk_fits by (unfold Int.min_int; lia). cbn [bind].
  rewrite vec_get_elt by lia. cbn [bind].
  rewrite chk_fits by (unfold Int.min_int, Int.max_int, max_dim in *; lia).
  cbn [bind]. rewrite vec_get_elt by lia. cbn [bind].
  now rewrite Z.add_assoc.
Qed.

(** The scalar loop [for (; k < n; ++k) sum += A[i * n + k] * b[k]]. *)
Lemma sum_loop i k cnt s :
  0 <= i < n -> 0 <= k -> k + Z.of_nat cnt <= n ->
  for_count cnt k (sum_step A b n i) s =
  Some (sigma_from s (term A b n i) k cnt).
Proof.
  intros Hi Hk. induction cnt as [|c IH]; intros Hc; [reflexivity|].
  rewrite for_count_S, IH by lia. cbn [bind sigma_from].
  unfold sum_step. rewrite prod_ok by lia. reflexivity.
Qed.

(** The in-place loop [for (; k < n; ++k) c[i] += A[i * n + k] * b[k]]. *)
Lemma accum_loop i k cnt (c : list T) :
  0 <= i < n -> 0 <= i < Z.of_nat (length c) ->
  0 <= k -> k + Z.of_nat cnt <= n ->
  for_count cnt k (fun k c => accum A b n i k c) c =
  Some (list_upd c (Z.to_nat i)
          (sigma_from (elt c i) (term A b n i) k cnt)).
Proof.
  intros Hi Hc Hk. induction cnt as [|cn IH]; intros Hcnt.
  - cbn [for_count sigma_from]. f_equal.
    apply nth_error_ext. intros m.
    destruct (Nat.eq_dec (Z.to_nat i) m) as [<-|N].
    + rewrite nth_error_list_upd_eq by lia.
      pose proof (vec_get_elt c Hc) as E. unfold vec_get in E.
      destruct (i <? 0) eqn:Ei; [discriminate|]. now rewrite E.
    + now rewrite nth_error_list_upd_neq.
  - rewrite for_count_S, IH by lia. cbn [bind sigma_from].
    unfold accum. rewrite prod_ok by lia. cbn [bind].
    rewrite vec_get_list_upd_eq by lia. cbn [bind].
    rewrite vec_set_in_range by (rewrite length_list_upd; lia).
    now rewrite list_upd_twice.
Qed.
End InRange.
End AccessFacts.

(** ** Vectors given element by element *)

Section Tabulate.
Context {T : Type} {SC : Scalar T}.

Lemma length_tabulate n (h : Z -> T) : 0 <= n -> Z.of_nat (length (tabulate n h)) = n.
Proof. intros H. unfold tabulate. rewrite length_map, length_seq. lia. Qed.

Lemma vec_get_tabulate n (h : Z -> T) m :
  0 <= m < n -> vec_get (tabulate n h) m = Some (h m).
Proof.
  intros [L U]. unfold vec_get, tabulate.
  apply Z.ltb_ge in L. rewrite L. apply Z.ltb_ge in L.
  rewrite nth_error_map, nth_error_seq.
  destruct (Nat.ltb_spec (Z.to_nat m) (Z.to_nat n)); [|lia].
  cbn. now rewrite Z2Nat.id.
Qed.

Lemma filled_tabulate n (h : Z -> T) c :
  0 <= n -> filled_to n h n c -> c = tabulate n h.
Proof.
  intros Hn [Hl Hc]. apply nth_error_ext. intros m.
  destruct (Nat.ltb_spec m (Z.to_nat n)) as [Lt|Ge].
  - specialize (Hc (Z.of_nat m)). pose proof (@vec_get_tabulate n h (Z.of_nat m)) as E.
    unfold vec_get in Hc, E.
    destruct (Z.of_nat m <? 0) eqn:Em; [apply Z.ltb_lt in Em; lia|].
    rewrite Nat2Z.id in Hc, E. rewrite Hc, E by lia. reflexivity.
  - transitivity (@None T); [|symmetry]; apply nth_error_None.
    + lia.
    + pose proof (@length_tabulate n h Hn). lia.
Qed.

(** Rows written one after the other, each with its own value. *)
Lemma rows_overwritten n (g : Z -> T) (body : Z -> list T -> option (list T)) c :
  0 <= n -> Z.of_nat (length c) = n ->
  (forall i c, 0 <= i < n -> Z.of_nat (length c) = n ->
     body i c = Some (list_upd c (Z.to_nat i) (g i))) ->
  for_lt 0 n body c = Some (tabulate n g).
Proof.
  intros Hn Hl Hbody. unfold for_lt. rewrite Z.sub_0_r.
  destruct (@for_count_inv _ (fun j c => filled_to n g (Z.of_nat j) c)
              (Z.to_nat n) 0 body c) as [c' [E F]].
  - split; [exact Hl|]. intros m Hm. lia.
  - intros j s Hj [Fl Fc]. rewrite Z.add_0_l.
    exists (list_upd s (Z.to_nat (Z.of_nat j)) (g (Z.of_nat j))). split.
    + apply Hbody; [lia|exact Fl].
    + split; [now rewrite length_list_upd|]. intros m Hm.
      destruct (Z.eq_dec m (Z.of_nat j)) as [->|N].
      * apply vec_get_list_upd_eq. lia.
      * rewrite vec_get_list_upd_neq by lia. apply Fc. lia.
  - rewrite E. f_equal. apply filled_tabulate; [exact Hn|].
    now rewrite Z2Nat.id in F.
Qed.
Lemma elt_list_upd_eq (c : list T) i x :
  0 <= i < Z.of_nat (length c) -> elt (list_upd c (Z.to_nat i) x) i = x.
Proof. intros H. unfold elt. now rewrite vec_get_list_upd_eq. Qed.

Lemma sigma_from_app (s : T) f lo a c :
  sigma_from s f lo (a + c) =
  sigma_from (sigma_from s f lo a) f (lo + Z.of_nat a) c.
Proof.
  induction c as [|c IH].
  - now rewrite Nat.add_0_r.
  - rewrite Nat.add_succ_r. cbn [sigma_from]. rewrite IH.
    do 2 f_equal. lia.
Qed.

(** A register load of [L] elements that lie inside the buffer. *)
Lemma loadu_ok (L : nat) (v : list T) idx :
  0 <= idx -> idx + Z.of_nat L <= Z.of_nat (length v) ->
  loadu L v idx = Some (map (fun j => elt v (idx + Z.of_nat j)) (seq 0 L)).
Proof.
  intros H0 H1. unfold loadu.
  destruct (idx <? 0) eqn:E; [apply Z.ltb_lt in E; lia|].
  rewrite length_firstn, length_skipn.
  replace (Init.Nat.min L (length v - Z.to_nat idx)) with L by lia.
  rewrite Nat.eqb_refl. f_equal. apply nth_error_ext. intros m.
  rewrite nth_error_firstn, nth_error_skipn, nth_error_map, nth_error_seq.
  destruct (Nat.ltb_spec m L) as [Lt|Ge]; [|reflexivity].
  cbn [option_map]. rewrite Nat.add_0_l.
  assert (Hm : 0 <= idx + Z.of_nat m < Z.of_nat (length v)) by lia.
  pose proof (vec_get_elt v Hm) as G. unfold vec_get in G.
  destruct (idx + Z.of_nat m <? 0) eqn:E'; [discriminate|].
  rewrite <- G. f_equal. lia.
Qed.
End Tabulate.

(** ** The kernels while every index fits *)

Section KernelsInRange.
Context {T : Type} {SC : Scalar T}.
Variables (n : Z) (A b : list T).
Hypothesis Hn : 0 <= n <= max_dim.
Hypothesis HA : Z.of_nat (length A) = n * n.
Hypothesis Hb : Z.of_nat (length b) = n.

(** The baseline, row by row. *)
Lemma Mv_mult_in_range c :
  Z.of_nat (length c) = n -> Proj1.Mv_mult n A b c = Some (product A b n).
Proof.
  intros Hc. unfold Proj1.Mv_mult, product.
  apply rows_overwritten; [lia|exact Hc|].
  intros i c' Hi Hc'. rewrite vec_set_in_range by lia. cbn [bind].
  unfold for_lt. rewrite Z.sub_0_r.
  rewrite (accum_loop A b Hn HA Hb) by (rewrite ?length_list_upd; lia).
  rewrite elt_list_upd_eq by lia. now rewrite list_upd_twice.
Qed.

(** One pass of the interchanged inner loop adds column [k] to every row. *)
Lemma column_pass (h : Z -> T) k c :
  0 <= k < n -> filled_to n h n c ->
  exists c', for_lt 0 n (fun i c => accum A b n i k c) c = Some c' /\
             filled_to n (fun m => add (h m) (term A b n m k)) n c'.
Proof.
  intros Hk Hc. unfold for_lt. rewrite Z.sub_0_r.
  destruct (@for_count_inv _
    (fun j c => filled_to n
       (fun m => if m <? Z.of_nat j then add (h m) (term A b n m k) else h m) n c)
    (Z.to_nat n) 0 (fun i c => accum A b n i k c) c) as [c' [E F]].
  - destruct Hc as [Hl Hc]. split; [exact Hl|]. intros m Hm.
    destruct (m <? Z.of_nat 0) eqn:E; [apply Z.ltb_lt in E; lia|]. auto.
  - intros j s Hj [Fl Fc]. rewrite Z.add_0_l. unfold accum.
    rewrite (prod_ok A b Hn HA Hb) by lia. cbn [bind].
    rewrite (Fc (Z.of_nat j)) by lia. rewrite Z.ltb_irrefl. cbn [bind].
    rewrite vec_set_in_range by lia. eexists. split; [reflexivity|].
    split; [now rewrite length_list_upd|]. intros m Hm.
    destruct (Z.eq_dec m (Z.of_nat j)) as [->|N].
    + rewrite vec_get_list_upd_eq by lia.
      destruct (Z.of_nat j <? Z.of_nat (S j)) eqn:E; [reflexivity|].
      apply Z.ltb_ge in E. lia.
    + rewrite vec_get_list_upd_neq by lia. rewrite (Fc m Hm).
      destruct (m <? Z.of_nat j) eqn:E1; destruct (m <? Z.of_nat (S j)) eqn:E2;
        try reflexivity;
        [apply Z.ltb_lt in E1; apply Z.ltb_ge in E2
        |apply Z.ltb_ge in E1; apply Z.ltb_lt in E2]; lia.
  - exists c'. split; [exact E|]. destruct F as [Fl Fc].
    split; [exact Fl|]. intros m Hm. rewrite (Fc m Hm).
    destruct (m <? Z.of_nat (Z.to_nat n)) eqn:E1; [reflexivity|].
    apply Z.ltb_ge in E1. lia.
Qed.

(** The interchanged loop nest, started on a zeroed vector. *)
Lemma interchanged_loops c :
  filled_to n (fun _ => zero) n c ->
  for_lt 0 n (fun k c => for_lt 0 n (fun i c => accum A b n i k c) c) c =
  Some (product A b n).
Proof.
  intros Hc. unfold for_lt at 1. rewrite Z.sub_0_r.
  destruct (@for_count_inv _
    (fun j c => filled_to n (fun m => sigma (term A b n m) 0 j) n c)
    (Z.to_nat n) 0
    (fun k c => for_lt 0 n (fun i c => accum A b n i k c) c) c) as [c' [E F]].
  - exact Hc.
  - intros j s Hj Fs. rewrite Z.add_0_l.
    destruct (@column_pass _ (Z.of_nat j) s ltac:(lia) Fs) as [s' [E' F']].
    exists s'. split; [exact E'|]. exact F'.
  - rewrite E. f_equal. unfold product. apply filled_tabulate; [lia|].
    exact F.
Qed.

Lemma filled_zero_tabulate : filled_to n (fun _ => zero) n (tabulate n (fun _ => @zero T SC)).
Proof.
  split; [apply length_tabulate; lia|].
  intros m Hm. now apply (@vec_get_tabulate T n (fun _ => zero)).
Qed.

Lemma Mv_mult_interchanged_in_range c :
  Z.of_nat (length c) = n ->
  Proj1.Mv_mult_interchanged n A b c = Some (product A b n).
Proof.
  intros Hc. unfold Proj1.Mv_mult_interchanged.
  rewrite (rows_overwritten (fun _ => zero)); [|lia|exact Hc|].
  - cbn [bind]. apply interchanged_loops. apply filled_zero_tabulate.
  - intros i c' Hi Hc'. apply vec_set_in_range. lia.
Qed.

Lemma fill_zero_filled c :
  Z.of_nat (length c) = n -> filled_to n (fun _ => zero) n (Hw1.fill_zero c).
Proof.
  intros Hc. unfold Hw1.fill_zero. split; [now rewrite length_map|].
  intros m Hm. unfold vec_get.
  destruct (m <? 0) eqn:E; [apply Z.ltb_lt in E; lia|].
  rewrite nth_error_map.
  destruct (nth_error c (Z.to_nat m)) eqn:E'; [reflexivity|].
  apply nth_error_None in E'. lia.
Qed.

Lemma Hw1_interchanged_in_range c :
  Z.of_nat (length c) = n ->
  Hw1.Mv_mult_interchanged n A b c = Some (product A b n).
Proof.
  intros Hc. unfold Hw1.Mv_mult_interchanged.
  apply interchanged_loops. now apply fill_zero_filled.
Qed.

Lemma memset_zero_filled c :
  Z.of_nat (length c) = n ->
  exists c', MvC.memset_zero c n = Some c' /\ filled_to n (fun _ => zero) n c'.
Proof.
  intros Hc. unfold MvC.memset_zero.
  destruct (0 <=? n) eqn:E1; [|apply Z.leb_gt in E1; lia].
  destruct (n <=? Z.of_nat (length c)) eqn:E2; [|apply Z.leb_gt in E2; lia].
  cbn [andb]. eexists. split; [reflexivity|].
  rewrite skipn_all2 by lia. rewrite app_nil_r.
  split; [rewrite repeat_length; lia|].
  intros m Hm. unfold vec_get.
  destruct (m <? 0) eqn:E; [apply Z.ltb_lt in E; lia|].
  rewrite nth_error_repeat by lia. reflexivity.
Qed.

Lemma MatVecMult_in_range c :
  Z.of_nat (length c) = n -> MvC.MatVecMult A b c n n = Some (product A b n).
Proof.
  intros Hc. unfold MvC.MatVecMult.
  destruct (memset_zero_filled c Hc) as [c' [E F]]. rewrite E. cbn [bind].
  now apply interchanged_loops.
Qed.
End KernelsInRange.

(** ** The strided kernels in exact arithmetic *)

Section StridedInRange.
Context {T : Type} {SC : Scalar T} {EA : ExactArith T}.
Variables (n : Z) (A b : list T).
Hypothesis Hn : 0 <= n <= max_dim.
Hypothesis HA : Z.of_nat (length A) = n * n.
Hypothesis Hb : Z.of_nat (length b) = n.

#[local] Instance add_Associative : Associative eq (@add T SC).
Proof. intros x y z. apply add_assoc. Qed.

#[local] Instance add_Commutative : Commutative eq (@add T SC).
Proof. intros x y. apply add_comm. Qed.

#[local] Instance add_Unit : Unit eq (@add T SC) zero.
Proof.
  split; intros x; [apply add_zero_l|].
  rewrite add_comm. apply add_zero_l.
Qed.

(** Where a loop [for (k = 0; k <= n - W; k += W)] stops. *)
Lemma stride_exit_value (W : positive) k :
  0 <= k <= n -> n - Zpos W < k -> k mod Zpos W = 0 -> k = Zpos W * (n / Zpos W).
Proof.
  intros Hk Hlt Hm.
  apply Z.mod_divide in Hm; [|lia]. destruct Hm as [q ->].
  rewrite (Z.mul_comm q). f_equal.
  apply Z.div_unique with (r := n - Zpos W * q); lia.
Qed.

(** The main loop of a strided row: [val] reads the running sum off the
    loop state, [ok] is what the state keeps. *)
Lemma main_loop {S : Type} (W : positive) (step : Z -> S -> option S)
    (val : S -> T) (ok : S -> Prop) i s0 :
  (forall k s, 0 <= k -> k + Zpos W <= n -> ok s ->
     exists s', step k s = Some s' /\ ok s' /\
                val s' = sigma_from (val s) (term A b n i) k (Pos.to_nat W)) ->
  ok s0 ->
  exists s', for_stride W (n - Zpos W) step 0 s0 = Some (Zpos W * (n / Zpos W), s') /\
             ok s' /\
             val s' = sigma_from (val s0) (term A b n i) 0
                        (Z.to_nat (Zpos W * (n / Zpos W))).
Proof.
  intros Hstep H0.
  destruct (@for_stride_inv S
    (fun k s => 0 <= k <= n /\ k mod Zpos W = 0 /\ ok s /\
                val s = sigma_from (val s0) (term A b n i) 0 (Z.to_nat k))
    W (n - Zpos W) step 0 s0) as (k' & s' & E & (Hk & Hm & Hok & Hv) & Hlt).
  - repeat split; auto; lia.
  - intros k s (Hk & Hm & Hok & Hv) Hle.
    destruct (Hstep k s) as (s1 & E1 & Ok1 & V1); auto; try lia.
    exists s1. repeat split; auto; try lia.
    + replace (k + Zpos W) with (k + 1 * Zpos W) by lia.
      now rewrite Z.mod_add by lia.
    + rewrite V1, Hv.
      replace (Z.to_nat (k + Zpos W)) with (Z.to_nat k + Pos.to_nat W)%nat by lia.
      rewrite sigma_from_app.
      replace (0 + Z.of_nat (Z.to_nat k)) with k by lia. reflexivity.
  - assert (Ek : k' = Zpos W * (n / Zpos W)) by now apply stride_exit_value.
    exists s'. rewrite <- Ek. auto.
Qed.

(** A strided row: main loop, remainder loop, store. *)
Lemma strided_row {S : Type} (W : positive) (step : Z -> S -> option S)
    (val : S -> T) (ok : S -> Prop) i s0 (c : list T) :
  (forall k s, 0 <= k -> k + Zpos W <= n -> ok s ->
     exists s', step k s = Some s' /\ ok s' /\
                val s' = sigma_from (val s) (term A b n i) k (Pos.to_nat W)) ->
  ok s0 -> val s0 = zero -> Zpos W <= Int.max_int ->
  0 <= i < n -> Z.of_nat (length c) = n ->
  (bound <- Int.sub n (Zpos W) ;;
   '(k, s) <- for_stride W bound step 0 s0 ;;
   sum <- for_lt k n (sum_step A b n i) (val s) ;;
   vec_set c i sum) = Some (list_upd c (Z.to_nat i) (dot_row A b n i)).
Proof.
  intros Hstep H0 Hz HW Hi Hc.
  unfold Int.sub. rewrite chk_fits
    by (unfold Int.min_int, Int.max_int, max_dim in *; lia).
  cbn [bind].
  destruct (@main_loop S W step val ok i s0 Hstep H0) as (s' & E & Hok & Hv).
  assert (Hq : 0 <= Zpos W * (n / Zpos W) <= n).
  { pose proof (Z.mul_div_le n (Zpos W)). pose proof (Z.div_pos n (Zpos W)). nia. }
  revert E Hv Hq. generalize (Zpos W * (n / Zpos W)). intros q E Hv Hq.
  rewrite E. cbn [bind].
  unfold for_lt. rewrite (sum_loop A b Hn HA Hb) by lia. cbn [bind].
  rewrite vec_set_in_range by lia. do 2 f_equal.
  rewrite Hv, Hz. unfold dot_row, sigma.
  replace (Z.to_nat n) with (Z.to_nat q + Z.to_nat (n - q))%nat by lia.
  rewrite sigma_from_app.
  replace (0 + Z.of_nat (Z.to_nat q)) with q by lia.
  reflexivity.
Qed.

(** Eight terms in one expression ([proj1/unroll.cpp]). *)
Lemma unroll8_step_ok i k s :
  0 <= i < n -> 0 <= k -> k + 8 <= n ->
  Proj1.unroll8_step A b n i k s = Some (sigma_from s (term A b n i) k 8).
Proof.
  intros Hi Hk Hk8. unfold Proj1.unroll8_step.
  rewrite (prod_ok A b Hn HA Hb) by lia. cbn [bind].
  do 7 (rewrite (prod_off_ok A b Hn HA Hb) by lia; cbn [bind]).
  f_equal. cbn [sigma_from]. cbn. rewrite Z.add_0_r. aac_reflexivity.
Qed.

(** Four statements, one term each ([hw1.cpp]). *)
Lemma unroll4_step_ok i k s :
  0 <= i < n -> 0 <= k -> k + 4 <= n ->
  Hw1.unroll4_step A b n i k s = Some (sigma_from s (term A b n i) k 4).
Proof.
  intros Hi Hk Hk4. unfold Hw1.unroll4_step, sum_step.
  rewrite (prod_ok A b Hn HA Hb) by lia. cbn [bind].
  do 3 (rewrite (prod_off_ok A b Hn HA Hb) by lia; cbn [bind]).
  f_equal. cbn [sigma_from]. cbn. now rewrite Z.add_0_r.
Qed.

Lemma Mv_mult_unrolled_in_range c :
  Z.of_nat (length c) = n ->
  Proj1.Mv_mult_unrolled n A b c = Some (product A b n).
Proof.
  intros Hc. unfold Proj1.Mv_mult_unrolled, product.
  apply rows_overwritten; [lia|exact Hc|]. intros i c' Hi Hc'.
  apply (@strided_row T 8 (Proj1.unroll8_step A b n i) (fun s => s) (fun _ => True));
    auto; try (unfold Int.max_int; lia).
  intros k s Hk Hk8 _. exists (sigma_from s (term A b n i) k 8).
  split; [now apply unroll8_step_ok|]. split; [exact I|reflexivity].
Qed.

Lemma Hw1_unrolled_in_range c :
  Z.of_nat (length c) = n ->
  Hw1.Mv_mult_unrolled n A b c = Some (product A b n).
Proof.
  intros Hc. unfold Hw1.Mv_mult_unrolled, product.
  apply rows_overwritten; [lia|exact Hc|]. intros i c' Hi Hc'.
  apply (@strided_row T 4 (Hw1.unroll4_step A b n i) (fun s => s) (fun _ => True));
    auto; try (unfold Int.max_int; lia).
  intros k s Hk Hk4 _. exists (sigma_from s (term A b n i) k 4).
  split; [now apply unroll4_step_ok|]. split; [exact I|reflexivity].
Qed.

Lemma hsum_setzero_4 : hsum (setzero 4) = @zero T SC.
Proof. cbn. now rewrite !add_zero_l. Qed.

Lemma hsum_setzero_8 : hsum (setzero 8) = @zero T SC.
Proof. cbn. now rewrite !add_zero_l. Qed.

Ltac lanes_step Hi Hk :=
  destruct (index_fits Hn Hi Hk) as (H1 & H2 & H3);
  unfold fmadd_step, Int.mul, Int.add;
  rewrite chk_fits by (unfold Int.min_int; lia); cbn [bind];
  rewrite chk_fits by (unfold Int.min_int; lia); cbn [bind];
  rewrite loadu_ok by nia; cbn [bind];
  rewrite loadu_ok by lia; cbn [bind map seq].

(** One [_mm256_fmadd_pd] step on four lanes ([avx2.cpp]). *)
Lemma fmadd_step_4_ok i k (v : list T) :
  0 <= i < n -> 0 <= k -> k + 4 <= n -> length v = 4%nat ->
  exists v', fmadd_step 4 A b n i k v = Some v' /\ length v' = 4%nat /\
             hsum v' = sigma_from (hsum v) (term A b n i) k 4.
Proof.
  intros Hi Hk Hk4 Hv. assert (Hk' : 0 <= k < n) by lia.
  lanes_step Hi Hk'.
  destruct v as [|v0 [|v1 [|v2 [|v3 [|]]]]]; try discriminate.
  eexists. split; [reflexivity|]. split; [reflexivity|].
  cbn [fmadd hsum fold_left sigma_from]. rewrite !fma_exact.
  unfold term. rewrite !Z.add_assoc. aac_reflexivity.
Qed.

(** One [_mm256_fmadd_ps] step on eight lanes ([hw1.cpp]). *)
Lemma fmadd_step_8_ok i k (v : list T) :
  0 <= i < n -> 0 <= k -> k + 8 <= n -> length v = 8%nat ->
  exists v', fmadd_step 8 A b n i k v = Some v' /\ length v' = 8%nat /\
             hsum v' = sigma_from (hsum v) (term A b n i) k 8.
Proof.
  intros Hi Hk Hk8 Hv. assert (Hk' : 0 <= k < n) by lia.
  lanes_step Hi Hk'.
  destruct v as [|v0 [|v1 [|v2 [|v3 [|v4 [|v5 [|v6 [|v7 [|]]]]]]]]];
    try discriminate.
  eexists. split; [reflexivity|]. split; [reflexivity|].
  cbn [fmadd hsum fold_left sigma_from]. rewrite !fma_exact.
  unfold term. rewrite !Z.add_assoc. aac_reflexivity.
Qed.

Lemma Mv_mult_optimized_in_range c :
  Z.of_nat (length c) = n ->
  Proj1.Mv_mult_optimized n A b c = Some (product A b n).
Proof.
  intros Hc. unfold Proj1.Mv_mult_optimized, product.
  apply rows_overwritten; [lia|exact Hc|]. intros i c' Hi Hc'.
  apply (@strided_row (list T) 4 (fmadd_step 4 A b n i) hsum
           (fun v => length v = 4%nat));
    auto using hsum_setzero_4; try (unfold Int.max_int; lia).
  intros k s Hk Hk4 Hs. now apply fmadd_step_4_ok.
Qed.

Lemma Hw1_avx2_in_range c :
  Z.of_nat (length c) = n ->
  Hw1.Mv_mult_avx2 n A b c = Some (product A b n).
Proof.
  intros Hc. unfold Hw1.Mv_mult_avx2, product.
  apply rows_overwritten; [lia|exact Hc|]. intros i c' Hi Hc'.
  apply (@strided_row (list T) 8 (fmadd_step 8 A b n i) hsum
           (fun v => length v = 8%nat));
    auto using hsum_setzero_8; try (unfold Int.max_int; lia).
  intros k s Hk Hk8 Hs. now apply fmadd_step_8_ok.
Qed.
End StridedInRange.

(** ** The kernels past the largest dimension

    In the last row an index [i * n + k] leaves the range of [int],
    whatever the buffers hold and however long they are. *)

Section KernelsOverflow.
Context {T : Type} {SC : Scalar T}.
Variables (n : Z) (A b : list T).
Hypothesis Hbig : max_dim < n.

Lemma accum_overflow c : accum A b n (n - 1) (n - 1) c = None.
Proof. unfold accum. now rewrite prod_overflow. Qed.

Lemma sum_step_overflow s : sum_step A b n (n - 1) (n - 1) s = None.
Proof. unfold sum_step. now rewrite prod_overflow. Qed.

Lemma last_in_range : 0 <= n - 1 < n.
Proof. unfold max_dim in Hbig. lia. Qed.

Lemma Mv_mult_overflow c : Proj1.Mv_mult n A b c = None.
Proof.
  unfold Proj1.Mv_mult.
  apply for_lt_None with (k := n - 1); [apply last_in_range|]. intros s.
  apply bind_None_r. intros s'.
  apply for_lt_None with (k := n - 1); [apply last_in_range|].
  apply accum_overflow.
Qed.

Lemma interchanged_loops_overflow c :
  for_lt 0 n (fun k c => for_lt 0 n (fun i c => accum A b n i k c) c) c = None.
Proof.
  apply for_lt_None with (k := n - 1); [apply last_in_range|]. intros s.
  apply for_lt_None with (k := n - 1); [apply last_in_range|].
  apply accum_overflow.
Qed.

Lemma Mv_mult_interchanged_overflow c : Proj1.Mv_mult_interchanged n A b c = None.
Proof.
  unfold Proj1.Mv_mult_interchanged. apply bind_None_r. intros s.
  apply interchanged_loops_overflow.
Qed.

Lemma Hw1_interchanged_overflow c : Hw1.Mv_mult_interchanged n A b c = None.
Proof. unfold Hw1.Mv_mult_interchanged. apply interchanged_loops_overflow. Qed.

Lemma MatVecMult_overflow c : MvC.MatVecMult A b c n n = None.
Proof.
  unfold MvC.MatVecMult. apply bind_None_r. intros s.
  apply interchanged_loops_overflow.
Qed.

(** A strided last row: the main loop stops short of [n - 1] and leaves it
    to the remainder loop, or it has run its first step. *)
Lemma strided_row_overflow {S : Type} (W : positive) (step : Z -> S -> option S)
    (val : S -> T) s0 (c : list T) :
  (max_dim + 1) mod Zpos W <> 0 ->
  (max_dim + 1 < n -> forall s, step 0 s = None) ->
  (bound <- Int.sub n (Zpos W) ;;
   '(k, s) <- for_stride W bound step 0 s0 ;;
   sum <- for_lt k n (sum_step A b n (n - 1)) (val s) ;;
   vec_set c (n - 1) sum) = None.
Proof.
  intros Hodd Hfirst. unfold Int.sub.
  destruct (Int.chk (n - Zpos W)) as [bound|] eqn:Eb; [|reflexivity].
  apply chk_Some in Eb. destruct Eb as [-> _]. cbn [bind].
  destruct (for_stride W (n - Zpos W) step 0 s0) as [[k s]|] eqn:E;
    [|reflexivity].
  cbn [bind].
  pose proof (for_stride_exit _ _ _ _ _ E) as (X1 & X2 & X3 & X4).
  rewrite Z.sub_0_r in X3.
  destruct (Z_lt_dec k n) as [Lt|Ge].
  - rewrite for_lt_None with (k := n - 1); [reflexivity|lia|].
    apply sum_step_overflow.
  - exfalso. assert (k = n) by (clear X3 Hodd E; unfold max_dim in Hbig; lia).
    subst k.
    destruct (Z.eq_dec n (max_dim + 1)) as [->|N]; [contradiction|].
    rewrite for_stride_eq in E.
    assert (Hb0 : 0 <= n - Zpos W).
    { apply Z.mod_divide in X3; [|lia]. destruct X3 as [q Hq].
      assert (0 < q) by (unfold max_dim in Hbig; nia). nia. }
    apply Z.leb_le in Hb0. rewrite Hb0 in E.
    rewrite Hfirst in E by lia. discriminate.
Qed.

Lemma Mv_mult_unrolled_overflow c : Proj1.Mv_mult_unrolled n A b c = None.
Proof.
  unfold Proj1.Mv_mult_unrolled.
  apply for_lt_None with (k := n - 1); [apply last_in_range|]. intros s.
  apply (@strided_row_overflow T 8 (Proj1.unroll8_step A b n (n - 1)) (fun s => s)).
  - unfold max_dim. discriminate.
  - intros H s'. unfold Proj1.unroll8_step, prod.
    now rewrite row_offset_overflow.
Qed.

Lemma Hw1_unrolled_overflow c : Hw1.Mv_mult_unrolled n A b c = None.
Proof.
  unfold Hw1.Mv_mult_unrolled.
  apply for_lt_None with (k := n - 1); [apply last_in_range|]. intros s.
  apply (@strided_row_overflow T 4 (Hw1.unroll4_step A b n (n - 1)) (fun s => s)).
  - unfold max_dim. discriminate.
  - intros H s'. unfold Hw1.unroll4_step, sum_step, prod.
    now rewrite row_offset_overflow.
Qed.

Lemma Mv_mult_optimized_overflow c : Proj1.Mv_mult_optimized n A b c = None.
Proof.
  unfold Proj1.Mv_mult_optimized.
  apply for_lt_None with (k := n - 1); [apply last_in_range|]. intros s.
  apply (@strided_row_overflow (list T) 4 (fmadd_step 4 A b n (n - 1)) hsum).
  - unfold max_dim. discriminate.
  - intros H s'. unfold fmadd_step. now rewrite row_offset_overflow.
Qed.

Lemma Hw1_avx2_overflow c : Hw1.Mv_mult_avx2 n A b c = None.
Proof.
  unfold Hw1.Mv_mult_avx2.
  apply for_lt_None with (k := n - 1); [apply last_in_range|]. intros s.
  apply (@strided_row_overflow (list T) 8 (fmadd_step 8 A b n (n - 1)) hsum).
  - unfold max_dim. discriminate.
  - intros H s'. unfold fmadd_step. now rewrite row_offset_overflow.
Qed.
End KernelsOverflow.

(** ** All variants at once *)

Section AllVariants.
Context {T : Type} {SC : Scalar T} {EA : ExactArith T}.

Lemma kernel_in_range v n (A b c : list T) :
  0 <= n <= max_dim ->
  Z.of_nat (length A) = n * n -> Z.of_nat (length b) = n ->
  Z.of_nat (length c) = n ->
  kernel v n A b c = Some (product A b n).
Proof.
  intros Hn HA Hb Hc. destruct v; cbn [kernel].
  - now apply Mv_mult_in_range.
  - now apply Mv_mult_interchanged_in_range.
  - now apply Mv_mult_unrolled_in_range.
  - now apply Mv_mult_optimized_in_range.
  - now apply Hw1_interchanged_in_range.
  - now apply Hw1_unrolled_in_range.
  - now apply Hw1_avx2_in_range.
  - now apply MatVecMult_in_range.
Qed.

Lemma kernel_overflow v n (A b c : list T) :
  max_dim < n -> kernel v n A b c = None.
Proof.
  intros Hn. destruct v; cbn [kernel].
  - now apply Mv_mult_overflow.
  - now apply Mv_mult_interchanged_overflow.
  - now apply Mv_mult_unrolled_overflow.
  - now apply Mv_mult_optimized_overflow.
  - now apply Hw1_interchanged_overflow.
  - now apply Hw1_unrolled_overflow.
  - now apply Hw1_avx2_overflow.
  - now apply MatVecMult_overflow.
Qed.

End AllVariants.

(** ** The output vector's previous contents *)

Lemma for_count_both {S : Type} (R : nat -> S -> S -> Prop) cnt i
    (body : Z -> S -> option S) s1 s2 :
  R O s1 s2 ->
  (forall j t1 t2, (j < cnt)%nat -> R j t1 t2 ->
     both (R (Datatypes.S j)) (body (i + Z.of_nat j) t1) (body (i + Z.of_nat j) t2)) ->
  both (R cnt) (for_count cnt i body s1) (for_count cnt i body s2).
Proof.
  intros H0 Hstep. induction cnt as [|c IH]; [exact H0|].
  rewrite !for_count_S.
  assert (IH' : both (R c) (for_count c i body s1) (for_count c i body s2))
    by (apply IH; intros; apply Hstep; auto; lia).
  destruct (for_count c i body s1) as [u1|], (for_count c i body s2) as [u2|];
    cbn [both bind] in *; try contradiction; auto.
Qed.

Lemma both_eq {S : Type} (o1 o2 : option S) : both eq o1 o2 -> o1 = o2.
Proof. destruct o1, o2; cbn; intros H; congruence || contradiction. Qed.

Lemma both_weaken {S : Type} (R R' : S -> S -> Prop) (o1 o2 : option S) :
  (forall x y, R x y -> R' x y) -> both R o1 o2 -> both R' o1 o2.
Proof. intros H. destruct o1, o2; cbn; auto. Qed.

Section PriorContents.
Context {T : Type} {SC : Scalar T}.
Variables (n : Z) (A b : list T).

Lemma agree_all_eq (c1 c2 : list T) : agree_to n n c1 c2 -> c1 = c2.
Proof.
  intros (L1 & L2 & H). apply nth_error_ext. intros m.
  destruct (Nat.ltb_spec m (length c1)) as [Lt|Ge].
  - specialize (H (Z.of_nat m)). unfold vec_get in H.
    destruct (Z.of_nat m <? 0) eqn:E; [apply Z.ltb_lt in E; lia|].
    rewrite Nat2Z.id in H. apply H. lia.
  - transitivity (@None T); [|symmetry]; apply nth_error_None; lia.
Qed.

(** [c[i] = x] on two vectors that agree below [i]. *)
Lemma vec_set_both (c1 c2 : list T) i x :
  0 <= i -> agree_to n i c1 c2 ->
  both (agree_to n (i + 1)) (vec_set c1 i x) (vec_set c2 i x).
Proof.
  intros Hi (L1 & L2 & H). unfold vec_set. rewrite L1, L2.
  destruct ((0 <=? i) && (i <? n)) eqn:E; cbn [both]; [|exact I].
  apply andb_true_iff in E. destruct E as [_ E]. apply Z.ltb_lt in E.
  split; [|split]; rewrite ?length_list_upd; auto.
  intros m Hm. destruct (Z.eq_dec m i) as [->|N].
  - rewrite !vec_get_list_upd_eq by lia. reflexivity.
  - rewrite !vec_get_list_upd_neq by lia. apply H. lia.
Qed.

(** [c[i] += A[i * n + k] * b[k]] on two vectors that agree up to [i]. *)
Lemma accum_both (c1 c2 : list T) i k :
  0 <= i -> agree_to n (i + 1) c1 c2 ->
  both (agree_to n (i + 1)) (accum A b n i k c1) (accum A b n i k c2).
Proof.
  intros Hi (L1 & L2 & H). unfold accum.
  destruct (prod A b n i k) as [t|]; cbn [bind both]; [|exact I].
  rewrite <- (H i) by lia.
  destruct (vec_get c1 i) as [ci|] eqn:E; cbn [bind both]; [|exact I].
  apply vec_get_Some in E. unfold vec_set. rewrite L1, L2.
  destruct ((0 <=? i) && (i <? n)) eqn:E'; cbn [both]; [|exact I].
  split; [|split]; rewrite ?length_list_upd; auto.
  intros m Hm. destruct (Z.eq_dec m i) as [->|N].
  - rewrite !vec_get_list_upd_eq by lia. reflexivity.
  - rewrite !vec_get_list_upd_neq by lia. apply H. lia.
Qed.

(** Rows that are each overwritten with a value computed apart from [c]. *)
Lemma overwritten_rows_eq (G : Z -> option T)
    (body : Z -> list T -> option (list T)) (c1 c2 : list T) :
  (forall i c, body i c = (x <- G i ;; vec_set c i x)) ->
  0 <= n -> Z.of_nat (length c1) = n -> Z.of_nat (length c2) = n ->
  for_lt 0 n body c1 = for_lt 0 n body c2.
Proof.
  intros Hbody Hn L1 L2. apply both_eq. unfold for_lt. rewrite Z.sub_0_r.
  apply both_weaken with (R := agree_to n (Z.of_nat (Z.to_nat n))).
  { intros x y H. apply agree_all_eq. now rewrite Z2Nat.id in H. }
  apply (for_count_both (fun j => agree_to n (Z.of_nat j))).
  - split; [|split]; auto. intros m Hm. lia.
  - intros j t1 t2 Hj Ht. rewrite Z.add_0_l, !Hbody.
    destruct (G (Z.of_nat j)) as [x|]; cbn [bind both]; [|exact I].
    rewrite Nat2Z.inj_succ, <- Z.add_1_r. apply vec_set_both; [lia|exact Ht].
Qed.

Lemma Mv_mult_prior (c1 c2 : list T) :
  0 <= n -> Z.of_nat (length c1) = n -> Z.of_nat (length c2) = n ->
  Proj1.Mv_mult n A b c1 = Proj1.Mv_mult n A b c2.
Proof.
  intros Hn L1 L2. apply both_eq. unfold Proj1.Mv_mult, for_lt.
  rewrite Z.sub_0_r.
  apply both_weaken with (R := agree_to n (Z.of_nat (Z.to_nat n))).
  { intros x y H. apply agree_all_eq. now rewrite Z2Nat.id in H. }
  apply (for_count_both (fun j => agree_to n (Z.of_nat j))).
  - split; [|split]; auto. intros m Hm. lia.
  - intros j t1 t2 Hj Ht. rewrite Z.add_0_l.
    pose proof (@vec_set_both t1 t2 (Z.of_nat j) zero ltac:(lia) Ht) as Hs.
    destruct (vec_set t1 (Z.of_nat j) zero) as [u1|],
             (vec_set t2 (Z.of_nat j) zero) as [u2|];
      cbn [bind both] in *; try contradiction; auto.
    rewrite Nat2Z.inj_succ, <- Z.add_1_r.
    apply (for_count_both (fun _ => agree_to n (Z.of_nat j + 1))); [exact Hs|].
    intros k v1 v2 _ Hv. apply accum_both; [lia|exact Hv].
Qed.

Lemma Mv_mult_interchanged_prior (c1 c2 : list T) :
  0 <= n -> Z.of_nat (length c1) = n -> Z.of_nat (length c2) = n ->
  Proj1.Mv_mult_interchanged n A b c1 = Proj1.Mv_mult_interchanged n A b c2.
Proof.
  intros Hn L1 L2. unfold Proj1.Mv_mult_interchanged.
  rewrite !(rows_overwritten (fun _ => zero)); auto;
    intros i c Hi Hc; apply vec_set_in_range; lia.
Qed.

Lemma fill_zero_prior (c1 c2 : list T) :
  length c1 = length c2 -> Hw1.fill_zero c1 = Hw1.fill_zero c2.
Proof.
  revert c2. induction c1 as [|x c1 IH]; intros [|y c2] H; try discriminate;
    [reflexivity|].
  unfold Hw1.fill_zero in *. cbn [map]. f_equal. apply IH.
  now injection H.
Qed.

Lemma Hw1_interchanged_prior (c1 c2 : list T) :
  Z.of_nat (length c1) = n -> Z.of_nat (length c2) = n ->
  Hw1.Mv_mult_interchanged n A b c1 = Hw1.Mv_mult_interchanged n A b c2.
Proof.
  intros L1 L2. unfold Hw1.Mv_mult_interchanged.
  rewrite (@fill_zero_prior c1 c2) by lia. reflexivity.
Qed.

Lemma MatVecMult_prior (c1 c2 : list T) :
  Z.of_nat (length c1) = n -> Z.of_nat (length c2) = n ->
  MvC.MatVecMult A b c1 n n = MvC.MatVecMult A b c2 n n.
Proof.
  intros L1 L2. unfold MvC.MatVecMult, MvC.memset_zero.
  rewrite L1, L2, !skipn_all2 by lia. reflexivity.
Qed.

Ltac overwritten G :=
  intros Hn L1 L2; apply (@overwritten_rows_eq G); auto;
  intros i c; cbn beta zeta;
  destruct (Int.sub n _) as [bound|]; cbn [bind]; [|reflexivity];
  match goal with
  | |- context [for_stride ?W ?bd ?st ?k ?s] =>
      destruct (for_stride W bd st k s) as [[k' s']|]; cbn [bind]; [|reflexivity]
  end;
  match goal with
  | |- context [for_lt ?lo ?hi ?st ?s] =>
      destruct (for_lt lo hi st s); reflexivity
  end.

Lemma Mv_mult_unrolled_prior (c1 c2 : list T) :
  0 <= n -> Z.of_nat (length c1) = n -> Z.of_nat (length c2) = n ->
  Proj1.Mv_mult_unrolled n A b c1 = Proj1.Mv_mult_unrolled n A b c2.
Proof.
  unfold Proj1.Mv_mult_unrolled.
  overwritten (fun i =>
    bound <- Int.sub n 8 ;;
    '(k, sum) <- for_stride 8 bound (Proj1.unroll8_step A b n i) 0 zero ;;
    for_lt k n (sum_step A b n i) sum).
Qed.

Lemma Mv_mult_optimized_prior (c1 c2 : list T) :
  0 <= n -> Z.of_nat (length c1) = n -> Z.of_nat (length c2) = n ->
  Proj1.Mv_mult_optimized n A b c1 = Proj1.Mv_mult_optimized n A b c2.
Proof.
  unfold Proj1.Mv_mult_optimized.
  overwritten (fun i =>
    bound <- Int.sub n 4 ;;
    '(k, c_vec) <- for_stride 4 bound (fmadd_step 4 A b n i) 0 (setzero 4) ;;
    for_lt k n (sum_step A b n i) (hsum c_vec)).
Qed.

Lemma Hw1_unrolled_prior (c1 c2 : list T) :
  0 <= n -> Z.of_nat (length c1) = n -> Z.of_nat (length c2) = n ->
  Hw1.Mv_mult_unrolled n A b c1 = Hw1.Mv_mult_unrolled n A b c2.
Proof.
  unfold Hw1.Mv_mult_unrolled.
  overwritten (fun i =>
    bound <- Int.sub n 4 ;;
    '(k, sum) <- for_stride 4 bound (Hw1.unroll4_step A b n i) 0 zero ;;
    for_lt k n (sum_step A b n i) sum).
Qed.

Lemma Hw1_avx2_prior (c1 c2 : list T) :
  0 <= n -> Z.of_nat (length c1) = n -> Z.of_nat (length c2) = n ->
  Hw1.Mv_mult_avx2 n A b c1 = Hw1.Mv_mult_avx2 n A b c2.
Proof.
  unfold Hw1.Mv_mult_avx2.
  overwritten (fun i =>
    bound <- Int.sub n 8 ;;
    '(k, c_vec) <- for_stride 8 bound (fmadd_step 8 A b n i) 0 (setzero 8) ;;
    for_lt k n (sum_step A b n i) (hsum c_vec)).
Qed.
End PriorContents.

(** ** Exact rationals are exact *)

#[export] Instance Qc_ExactArith : ExactArith Qc.
Proof.
  split.
  - apply Qcplus_comm.
  - apply Qcplus_assoc.
  - apply Qcplus_0_l.
  - reflexivity.
  - intros x y. cbn [of_int add Qc_Scalar]. unfold Qcplus.
    apply Q2Qc_eq_iff. cbn [this Q2Qc].
    rewrite !Qred_correct, inject_Z_plus. reflexivity.
  - apply Qc_is_canon. reflexivity.
Qed.

(** * The kernels: results *)

(** C1 (amended): for every N with 0 < N <= 46340, every matrix A of length
    N*N (row-major), vector b of length N and output vector c of length N,
    each kernel variant, in exact arithmetic, returns a vector c' of length N
    with c'[i] equal to the sum over k in [0,N) of A[i*N+k] * b[k], for every
    i in [0,N). *)
Theorem kernels_compute_product (T : Type) (SC : Scalar T) (EA : ExactArith T)
    (v : variant) (n : Z) (A b c : list T) :
  0 < n <= max_dim ->
  Z.of_nat (length A) = n * n ->
  Z.of_nat (length b) = n ->
  Z.of_nat (length c) = n ->
  exists c', kernel v n A b c = Some c' /\
             Z.of_nat (length c') = n /\
             forall i, 0 <= i < n -> vec_get c' i = Some (dot_row A b n i).
Proof.
  intros Hn HA Hb Hc. exists (product A b n).
  split; [apply kernel_in_range; auto; lia|].
  split; [apply length_tabulate; lia|].
  intros i Hi. unfold product. now rewrite vec_get_tabulate.
Qed.

(** The unrolled kernel on a 3 x 3 matrix of rationals. *)
Lemma kernels_compute_product_witness :
  exists c',
    kernel Unrolled8 3 (rationals [1; 2; 3; 4; 5; 6; 7; 8; 9])
           (rationals [1; 1; 1]) (rationals [0; 0; 0]) = Some c' /\
    Z.of_nat (length c') = 3 /\
    forall i, 0 <= i < 3 ->
      vec_get c' i
      = Some (dot_row (rationals [1; 2; 3; 4; 5; 6; 7; 8; 9])
                      (rationals [1; 1; 1]) 3 i).
Proof.
  apply (@kernels_compute_product Qc Qc_Scalar Qc_ExactArith Unrolled8 3);
    [unfold max_dim; lia | reflexivity | reflexivity | reflexivity].
Defined.

(** C1 as stated fails at N = 46341: in row 46340 the index
    [46340 * 46341 + 41708] is [2^31]; the baseline has no result. *)
Lemma kernels_compute_product_counterexample :
  0 < first_bad_dim /\
  Z.of_nat (length zeros_A) = first_bad_dim * first_bad_dim /\
  Z.of_nat (length zeros_b) = first_bad_dim /\
  ~ exists c', kernel Baseline first_bad_dim zeros_A zeros_b zeros_b = Some c' /\
               forall i, 0 <= i < first_bad_dim ->
                 vec_get c' i = Some (dot_row zeros_A zeros_b first_bad_dim i).
Proof.
  split; [reflexivity|].
  split; [unfold zeros_A; rewrite repeat_length; apply Z2Nat.id; discriminate|].
  split; [unfold zeros_b; rewrite repeat_length; apply Z2Nat.id; discriminate|].
  intros [c' [E _]].
  assert (H : kernel Baseline first_bad_dim zeros_A zeros_b zeros_b = None)
    by (apply Mv_mult_overflow; reflexivity).
  congruence.
Qed.

(** ** The unrolled kernels in any arithmetic *)

Section SplitRows.
Context {T : Type} {SC : Scalar T}.
Variables (n : Z) (A b : list T).
Hypothesis Hn : 0 <= n <= max_dim.
Hypothesis HA : Z.of_nat (length A) = n * n.
Hypothesis Hb : Z.of_nat (length b) = n.





End SplitRows.




(** C10: for every n >= 0, every A and b, and any two initial contents of the
    output vector c (of length n), each kernel variant yields the same
    outcome, so the result never depends on c's prior contents.  No property
    of the element arithmetic is used. *)
Theorem result_independent_of_prior_contents (T : Type) (SC : Scalar T)
    (v : variant) (n : Z) (A b c1 c2 : list T) :
  0 <= n ->
  Z.of_nat (length c1) = n ->
  Z.of_nat (length c2) = n ->
  kernel v n A b c1 = kernel v n A b c2.
Proof.
  intros Hn L1 L2. destruct v; cbn [kernel].
  - now apply Mv_mult_prior.
  - now apply Mv_mult_interchanged_prior.
  - now apply Mv_mult_unrolled_prior.
  - now apply Mv_mult_optimized_prior.
  - now apply Hw1_interchanged_prior.
  - now apply Hw1_unrolled_prior.
  - now apply Hw1_avx2_prior.
  - now apply MatVecMult_prior.
Qed.

(** [MatVecMult] started on two different output vectors. *)
Lemma result_independent_of_prior_contents_witness :
  kernel MatVecMult_c 2 (rationals [1; 2; 3; 4]) (rationals [5; 6])
         (rationals [7; 8])
  = kernel MatVecMult_c 2 (rationals [1; 2; 3; 4]) (rationals [5; 6])
           (rationals [0; 1]).
Proof.
  apply (@result_independent_of_prior_contents Qc Qc_Scalar MatVecMult_c 2);
    [lia | reflexivity | reflexivity].
Defined.

(** * The generators *)

Section GeneratorFacts.
Context {T : Type} {SC : Scalar T}.

Lemma filled_to_start N (h : Z -> T) c :
  Z.of_nat (length c) = N -> filled_to N h 0 c.
Proof. intros H. split; [exact H|]. intros m Hm. lia. Qed.

(** Storing the next element of a buffer filled up to [p]. *)
Lemma filled_to_set N (h : Z -> T) p c x :
  filled_to N h p c -> 0 <= p < N -> x = h p ->
  vec_set c p x = Some (list_upd c (Z.to_nat p) x) /\
  filled_to N h (p + 1) (list_upd c (Z.to_nat p) x).
Proof.
  intros [Hl Hc] Hp ->. split; [apply vec_set_in_range; lia|].
  split; [now rewrite length_list_upd|]. intros m Hm.
  destruct (Z.eq_dec m p) as [->|N'].
  - apply vec_get_list_upd_eq. lia.
  - rewrite vec_get_list_upd_neq by lia. apply Hc. lia.
Qed.

Lemma flat_index n i j :
  0 <= j < n -> (i * n + j) / n = i /\ (i * n + j) mod n = j.
Proof.
  intros Hj. split; symmetry.
  - apply Z.div_unique with (r := j); lia.
  - apply Z.mod_unique with (q := i); lia.
Qed.

Lemma tabulate_ext n (f g : Z -> T) :
  (forall i, 0 <= i < n -> f i = g i) -> tabulate n f = tabulate n g.
Proof.
  intros H. unfold tabulate. apply map_ext_in. intros a Ha.
  apply in_seq in Ha. apply H. lia.
Qed.

(** The generator loop of the C++ drivers, for any formula [bval] of [b]. *)
Lemma generate_loops (bval : Z -> T) n (A0 b0 : list T) :
  0 <= n <= max_dim ->
  Z.of_nat (length A0) = n * n -> Z.of_nat (length b0) = n ->
  for_lt 0 n (fun i '(A, b) =>
    b <- vec_set b i (bval i) ;;
    A <- for_lt 0 n (fun j A =>
           idx <- Int.mul i n ;;
           idx <- Int.add idx j ;;
           ij <- Int.add i j ;;
           vec_set A idx (div one (add (of_int ij) (of_int 2)))) A ;;
    Some (A, b)) (A0, b0)
  = Some (gen_A n, tabulate n bval).
Proof.
  intros Hn HA Hb. unfold for_lt at 1. rewrite Z.sub_0_r.
  set (hA := fun p : Z => div one (add (of_int (p / n + p mod n)) (of_int 2))).
  match goal with |- for_count _ _ ?body _ = _ =>
    destruct (@for_count_inv (list T * list T)
      (fun j s => filled_to (n * n) hA (Z.of_nat j * n) (fst s) /\
                  filled_to n bval (Z.of_nat j) (snd s))
      (Z.to_nat n) 0 body (A0, b0)) as [[A1 b1] [E [FA Fb]]]
  end.
  - split; cbn [fst snd]; now apply filled_to_start.
  - intros i [A b] Hi [FA Fb]. cbn [fst snd] in FA, Fb. rewrite Z.add_0_l.
    destruct (@filled_to_set n bval (Z.of_nat i) b (bval (Z.of_nat i)) Fb)
      as [Eb Fb']; [lia|reflexivity|].
    rewrite Eb. cbn [bind]. unfold for_lt. rewrite Z.sub_0_r.
    match goal with |- context [for_count _ _ ?inner A] =>
      destruct (@for_count_inv (list T)
        (fun j A => filled_to (n * n) hA (Z.of_nat i * n + Z.of_nat j) A)
        (Z.to_nat n) 0 inner A) as [A' [EA FA']]
    end.
    + now rewrite Z.add_0_r.
    + intros j A2 Hj FA2. rewrite Z.add_0_l.
      destruct (@index_fits n (Z.of_nat i) (Z.of_nat j)) as (H1 & H2 & H3);
        try lia.
      unfold Int.mul, Int.add.
      rewrite chk_fits by (unfold Int.min_int; lia). cbn [bind].
      rewrite chk_fits by (unfold Int.min_int; lia). cbn [bind].
      rewrite chk_fits by (unfold Int.min_int, Int.max_int, max_dim in *; lia).
      cbn [bind].
      destruct (@filled_to_set (n * n) hA (Z.of_nat i * n + Z.of_nat j) A2
                  (div one (add (of_int (Z.of_nat i + Z.of_nat j)) (of_int 2))) FA2)
        as [E2 F2]; [lia| |].
      * unfold hA. destruct (@flat_index n (Z.of_nat i) (Z.of_nat j)) as [-> ->];
          [lia|reflexivity].
      * rewrite E2. eexists. split; [reflexivity|].
        replace (Z.of_nat i * n + Z.of_nat (S j))
          with (Z.of_nat i * n + Z.of_nat j + 1) by lia.
        exact F2.
    + rewrite EA. cbn [bind]. eexists. split; [reflexivity|]. cbn [fst snd].
      split.
      * replace (Z.of_nat (S i) * n) with (Z.of_nat i * n + Z.of_nat (Z.to_nat n))
          by lia.
        exact FA'.
      * replace (Z.of_nat (S i)) with (Z.of_nat i + 1) by lia. exact Fb'.
  - rewrite E. cbn [fst snd] in FA, Fb. f_equal.
    rewrite Z2Nat.id in FA, Fb by lia.
    f_equal; [|apply filled_tabulate; [lia|exact Fb]].
    apply filled_tabulate; [nia|exact FA].
Qed.

Lemma proj1_generate_ok n (A0 b0 : list T) :
  0 <= n <= max_dim ->
  Z.of_nat (length A0) = n * n -> Z.of_nat (length b0) = n ->
  Proj1Main.generate n A0 b0 = Some (gen_A n, gen_b1 n).
Proof. apply (generate_loops (fun i => div one (add (of_int i) one))). Qed.

Lemma hw1_generate_ok n (A0 b0 : list T) :
  0 <= n <= max_dim ->
  Z.of_nat (length A0) = n * n -> Z.of_nat (length b0) = n ->
  Hw1Main.generate n A0 b0 = Some (gen_A n, gen_b2 n).
Proof. apply (generate_loops (fun i => div one (add (of_int i) (of_int 2)))). Qed.

(** [InitMatrix] on a block of [Rows * Cols] cells. *)
Lemma InitMatrix_ok Rows Cols (a0 : list T) :
  0 <= Rows -> 0 < Cols -> Rows * Cols <= Int.max_int -> Rows + Cols <= Int.max_int ->
  Z.of_nat (length a0) = Rows * Cols ->
  MvCMain.InitMatrix (MvCMain.Block a0) Rows Cols
  = Some (MvCMain.Block
            (tabulate (Rows * Cols)
               (fun p => div one (of_int (p / Cols + p mod Cols + 2))))).
Proof.
  intros Hr Hc Hrc Hsum Hl. unfold MvCMain.InitMatrix, for_lt.
  rewrite !Z.sub_0_r.
  set (hA := fun p : Z => div one (of_int (p / Cols + p mod Cols + 2))).
  match goal with |- for_count _ _ ?body _ = _ =>
    destruct (@for_count_inv (@MvCMain.Matrix T)
      (fun j M => exists v, M = MvCMain.Block v /\
                            filled_to (Rows * Cols) hA (Z.of_nat j * Cols) v)
      (Z.to_nat Rows) 0 body (MvCMain.Block a0)) as [M [E [v [-> F]]]]
  end.
  - exists a0. split; [reflexivity|]. now apply filled_to_start.
  - intros i M Hi [v [-> F]]. rewrite Z.add_0_l.
    match goal with |- context [for_count _ _ ?inner (MvCMain.Block v)] =>
      destruct (@for_count_inv (@MvCMain.Matrix T)
        (fun j M => exists v, M = MvCMain.Block v /\
           filled_to (Rows * Cols) hA (Z.of_nat i * Cols + Z.of_nat j) v)
        (Z.to_nat Cols) 0 inner (MvCMain.Block v)) as [M' [E' [v' [-> F']]]]
    end.
    + exists v. split; [reflexivity|]. now rewrite Z.add_0_r.
    + intros j M2 Hj [v2 [-> F2]]. rewrite Z.add_0_l.
      assert (Hidx : 0 <= Z.of_nat i * Cols + Z.of_nat j < Rows * Cols) by nia.
      assert (Hrow : 0 <= Z.of_nat i * Cols <= Rows * Cols) by nia.
      unfold Int.mul, Int.add.
      rewrite chk_fits by (unfold Int.min_int; lia). cbn [bind].
      rewrite chk_fits by (unfold Int.min_int; lia). cbn [bind].
      rewrite chk_fits by (unfold Int.min_int; lia). cbn [bind].
      rewrite chk_fits by (unfold Int.min_int; lia). cbn [bind MvCMain.deref].
      destruct (@filled_to_set (Rows * Cols) hA (Z.of_nat i * Cols + Z.of_nat j) v2
                  (div one (of_int (Z.of_nat i + Z.of_nat j + 2))) F2)
        as [E2 F2']; [lia| |].
      * unfold hA. destruct (@flat_index Cols (Z.of_nat i) (Z.of_nat j)) as [-> ->];
          [lia|reflexivity].
      * rewrite E2. cbn [bind]. eexists. split; [reflexivity|].
        eexists. split; [reflexivity|].
        replace (Z.of_nat i * Cols + Z.of_nat (S j))
          with (Z.of_nat i * Cols + Z.of_nat j + 1) by lia.
        exact F2'.
    + exists (MvCMain.Block v'). split; [exact E'|].
      exists v'. split; [reflexivity|].
      replace (Z.of_nat (S i) * Cols)
        with (Z.of_nat i * Cols + Z.of_nat (Z.to_nat Cols)) by lia.
      exact F'.
  - rewrite E. do 2 f_equal. apply filled_tabulate; [nia|].
    now rewrite Z2Nat.id in F by lia.
Qed.
End GeneratorFacts.

(** * The drivers *)

Section DriverFacts.
Context {T : Type} {SC : Scalar T}.

Lemma dim_squared_fits n :
  0 <= n <= max_dim -> Int.mul n n = Some (n * n).
Proof.
  intros Hn. unfold Int.mul. apply chk_fits.
  unfold Int.min_int, Int.max_int, max_dim in *. nia.
Qed.

Lemma vector_new_ok size :
  0 <= size -> @vector_new T SC size = ret (repeat zero (Z.to_nat size)).
Proof.
  intros H. unfold vector_new.
  destruct (size <? 0) eqn:E; [apply Z.ltb_lt in E; lia|reflexivity].
Qed.

Lemma length_zeros (k : Z) :
  0 <= k -> Z.of_nat (length (repeat (@zero T SC) (Z.to_nat k))) = k.
Proof. intros H. rewrite repeat_length. lia. Qed.

(** A [src/proj1] driver on a valid dimension: the generated inputs go to
    the kernel, whichever it is, and its result is reported. *)
Lemma proj1_run (kernel : Z -> list T -> list T -> list T -> option (list T))
    clock argv n :
  length argv = 2%nat -> atoi (arg argv 1) = Some n -> 0 < n <= max_dim ->
  run (Proj1Main.main kernel clock argv)
  = proj1_report clock n (kernel n (gen_A n) (gen_b1 n) (repeat zero (Z.to_nat n))).
Proof.
  intros Hargc Hn Hr. unfold Proj1Main.main. rewrite Hargc, Hn.
  cbn [Nat.eqb negb lift pbind ret].
  destruct (n <=? 0) eqn:E; [apply Z.leb_le in E; lia|].
  rewrite dim_squared_fits by lia. cbn [lift pbind ret].
  rewrite !vector_new_ok by nia. cbn [pbind ret].
  rewrite proj1_generate_ok by (rewrite ?length_zeros; nia || lia).
  cbn [lift pbind ret]. unfold proj1_report.
  destruct (kernel n (gen_A n) (gen_b1 n) (repeat zero (Z.to_nat n))) as [c|];
    [|reflexivity].
  cbn [lift pbind ret emit app]. destruct (checksum n c); reflexivity.
Qed.

(** [hw1.cpp] on a valid dimension, before the selector is looked at. *)
Lemma hw1_run_default clock argv n :
  length argv = 2%nat -> atoi (arg argv 1) = Some n -> 0 < n <= max_dim ->
  run (Hw1Main.main clock argv)
  = micros_report clock one Hw1Main.gflops n
      (Hw1.Mv_mult_avx2 n (gen_A n) (gen_b2 n) (repeat zero (Z.to_nat n))).
Proof.
  intros Hargc Hn Hr. unfold Hw1Main.main. rewrite Hargc, Hn.
  cbn [Nat.eqb lift pbind ret].
  rewrite dim_squared_fits by lia. cbn [lift pbind ret].
  rewrite !vector_new_ok by nia. cbn [pbind ret].
  rewrite hw1_generate_ok by (rewrite ?length_zeros; nia || lia).
  cbn [lift pbind ret]. unfold micros_report.
  change (String.eqb "avx2" "avx2") with true. cbv iota.
  destruct (Hw1.Mv_mult_avx2 n (gen_A n) (gen_b2 n) (repeat zero (Z.to_nat n)))
    as [c|]; [|reflexivity].
  cbn [lift pbind ret emit app]. unfold Hw1Main.get_microtime_resolution.
  destruct (vec_get c (Z.quot n 2)); reflexivity.
Qed.

(** [hw1.cpp] with a selector: what [main] does after generation. *)
Lemma hw1_run_selected clock argv n :
  length argv = 3%nat -> atoi (arg argv 2) = Some n -> 0 < n <= max_dim ->
  run (Hw1Main.main clock argv)
  = let A := gen_A n in
    let B := gen_b2 n in
    let C := repeat zero (Z.to_nat n) in
    if String.eqb (arg argv 1) "avx2" then
      micros_report clock one Hw1Main.gflops n (Hw1.Mv_mult_avx2 n A B C)
    else if String.eqb (arg argv 1) "unroll" then
      micros_report clock one Hw1Main.gflops n (Hw1.Mv_mult_unrolled n A B C)
    else if String.eqb (arg argv 1) "interchange" then
      micros_report clock one Hw1Main.gflops n (Hw1.Mv_mult_interchanged n A B C)
    else
      (Err ("Error: Unknown optimization type '" ++ arg argv 1 ++ "'")%string
         :: map Err (Hw1Main.usage_lines (arg argv 0)),
       Exit 1).
Proof.
  intros Hargc Hn Hr. unfold Hw1Main.main. rewrite Hargc, Hn.
  cbn [Nat.eqb lift pbind ret].
  rewrite dim_squared_fits by lia. cbn [lift pbind ret].
  rewrite !vector_new_ok by nia. cbn [pbind ret].
  rewrite hw1_generate_ok by (rewrite ?length_zeros; nia || lia).
  cbn [lift pbind ret]. cbv zeta. unfold micros_report.
  destruct (String.eqb (arg argv 1) "avx2").
  { destruct (Hw1.Mv_mult_avx2 _ _ _ _) as [c|]; [|reflexivity].
    cbn [lift pbind ret emit app]. unfold Hw1Main.get_microtime_resolution.
    destruct (vec_get c (Z.quot n 2)); reflexivity. }
  destruct (String.eqb (arg argv 1) "unroll").
  { destruct (Hw1.Mv_mult_unrolled _ _ _ _) as [c|]; [|reflexivity].
    cbn [lift pbind ret emit app]. unfold Hw1Main.get_microtime_resolution.
    destruct (vec_get c (Z.quot n 2)); reflexivity. }
  destruct (String.eqb (arg argv 1) "interchange").
  { destruct (Hw1.Mv_mult_interchanged _ _ _ _) as [c|]; [|reflexivity].
    cbn [lift pbind ret emit app]. unfold Hw1Main.get_microtime_resolution.
    destruct (vec_get c (Z.quot n 2)); reflexivity. }
  unfold Hw1Main.print_usage. cbn [lift pbind ret emit halt app].
  now rewrite app_nil_r.
Qed.
End DriverFacts.

Section MvCDriverFacts.
Context {T : Type} {SC : Scalar T}.

(** A loop over a pointer whose body only replaces the block it addresses. *)
Lemma for_count_on_blocks cnt i
    (body : Z -> @MvCMain.Matrix T -> option (@MvCMain.Matrix T))
    (g : Z -> list T -> option (list T)) c :
  (forall k c, body k (MvCMain.Block c) = (c' <- g k c ;; Some (MvCMain.Block c'))) ->
  for_count cnt i body (MvCMain.Block c)
  = (c' <- for_count cnt i g c ;; Some (MvCMain.Block c')).
Proof.
  intros Hbody. revert i c. induction cnt as [|cnt IH]; intros i c; [reflexivity|].
  cbn [for_count]. rewrite Hbody.
  destruct (g i c) as [c1|]; cbn [bind]; [apply IH|reflexivity].
Qed.

(** [MatVecMult] through three valid pointers is [MatVecMult] on the blocks. *)
Lemma MatVecMult_blocks (a b c : list T) ARows ACols :
  MvCMain.MatVecMult (MvCMain.Block a) (MvCMain.Block b) (MvCMain.Block c) ARows ACols
  = (c' <- MvC.MatVecMult a b c ARows ACols ;; Some (MvCMain.Block c')).
Proof.
  unfold MvCMain.MatVecMult, MvC.MatVecMult, MvCMain.memset.
  cbn [MvCMain.deref bind].
  destruct (MvC.memset_zero c ARows) as [c0|]; cbn [bind]; [|reflexivity].
  unfold for_lt. apply for_count_on_blocks. intros k c1.
  apply for_count_on_blocks. intros i c2. reflexivity.
Qed.

Lemma malloc_ok (h : @MvCMain.heap T) j cells :
  0 <= cells -> MvCMain.alloc_ok h j = true ->
  MvCMain.malloc h j cells
  = MvCMain.Block (map (MvCMain.junk h j) (seq 0 (Z.to_nat cells))).
Proof.
  intros Hc Hok. unfold MvCMain.malloc. rewrite Hok.
  destruct (cells <? 0) eqn:E; [apply Z.ltb_lt in E; lia|reflexivity].
Qed.

Lemma length_junk (f : nat -> T) cells :
  0 <= cells -> Z.of_nat (length (map f (seq 0 (Z.to_nat cells)))) = cells.
Proof. intros H. rewrite length_map, length_seq. lia. Qed.

Lemma InitMatrix_square n (a0 : list T) :
  0 < n <= max_dim -> Z.of_nat (length a0) = n * n ->
  MvCMain.InitMatrix (MvCMain.Block a0) n n = Some (MvCMain.Block (gen_A_c n)).
Proof.
  intros Hn Hl. apply InitMatrix_ok; auto;
    unfold Int.max_int, max_dim in *; nia.
Qed.

Lemma InitMatrix_column n (b0 : list T) :
  0 < n <= max_dim -> Z.of_nat (length b0) = n * 1 ->
  MvCMain.InitMatrix (MvCMain.Block b0) n 1 = Some (MvCMain.Block (gen_b_c n)).
Proof.
  intros Hn Hl. rewrite InitMatrix_ok; auto;
    try (unfold Int.max_int, max_dim in *; lia).
  do 2 f_equal. unfold gen_b_c. rewrite Z.mul_1_r.
  apply tabulate_ext. intros i Hi. now rewrite Z.div_1_r, Z.mod_1_r.
Qed.

(** [Mv.c] on a valid dimension when the three allocations succeed. *)
Lemma mvc_run file line (h : @MvCMain.heap T) clock resolution argv n :
  length argv = 2%nat -> atoi (arg argv 1) = Some n -> 0 < n <= max_dim ->
  MvCMain.alloc_ok h 0 = true ->
  MvCMain.alloc_ok h 1 = true ->
  MvCMain.alloc_ok h 2 = true ->
  run (MvCMain.main file line h clock resolution argv)
  = micros_report clock resolution MvCMain.gflops n
      (MvC.MatVecMult (gen_A_c n) (gen_b_c n) (repeat zero (Z.to_nat n)) n n).
Proof.
  intros Hargc Hn Hr H0 H1 H2. unfold MvCMain.main. rewrite Hargc, Hn.
  cbn [Nat.eqb negb lift pbind ret app]. unfold MvCMain.CreateMatrix.
  assert (Hone : Int.mul n 1 = Some (n * 1)).
  { unfold Int.mul. apply chk_fits.
    unfold Int.min_int, Int.max_int, max_dim in *. lia. }
  rewrite dim_squared_fits, Hone by lia. cbn [lift pbind ret app].
  rewrite !malloc_ok by (auto; nia). cbn [pbind ret app].
  rewrite InitMatrix_square by (try exact Hr; apply length_junk; nia).
  cbn [lift pbind ret app].
  rewrite InitMatrix_column by (try exact Hr; apply length_junk; lia).
  cbn [lift pbind ret app bind].
  unfold MvCMain.memset, MvC.memset_zero. cbn [MvCMain.deref bind].
  rewrite length_junk by lia.
  replace ((0 <=? n * 1) && (n * 1 <=? n * 1)) with true
    by (symmetry; apply andb_true_iff; split; apply Z.leb_le; lia).
  cbn [bind lift pbind ret app].
  rewrite skipn_all2 by (rewrite length_map, length_seq; lia).
  rewrite app_nil_r, Z.mul_1_r, MatVecMult_blocks. unfold micros_report.
  destruct (MvC.MatVecMult _ _ _ n n) as [c|]; [|reflexivity].
  cbn [bind lift pbind ret emit app MvCMain.deref].
  destruct (vec_get c (Z.quot n 2)); reflexivity.
Qed.
End MvCDriverFacts.

(** * The drivers: results *)

(** C3 (code defect): [hw1.cpp] documents the selector [baseline] in its
    usage text but has no branch for it; invoked with [baseline] it prints
    "Unknown optimization type" and the usage text to the error stream and
    exits with status 1 instead of running the baseline variant. *)
Theorem hw1_rejects_baseline_selector (T : Type) (SC : Scalar T) (clock : nat -> T) :
  let report := micros_report clock one Hw1Main.gflops 4 in
  let A := gen_A 4 in
  let B := gen_b2 4 in
  let C := repeat zero 4 in
  run (Hw1Main.main clock ["hw1"; "baseline"; "4"]%string)
    = (Err "Error: Unknown optimization type 'baseline'"
         :: map Err (Hw1Main.usage_lines "hw1"),
       Exit 1) /\
  In "  baseline    - Standard i-k loop implementation"%string
     (Hw1Main.usage_lines "hw1") /\
  run (Hw1Main.main clock ["hw1"; "4"]%string)
    = report (Hw1.Mv_mult_avx2 4 A B C) /\
  run (Hw1Main.main clock ["hw1"; "avx2"; "4"]%string)
    = report (Hw1.Mv_mult_avx2 4 A B C) /\
  run (Hw1Main.main clock ["hw1"; "unroll"; "4"]%string)
    = report (Hw1.Mv_mult_unrolled 4 A B C) /\
  run (Hw1Main.main clock ["hw1"; "interchange"; "4"]%string)
    = report (Hw1.Mv_mult_interchanged 4 A B C) /\
  run (Hw1Main.main clock ["hw1"; "vectorized"; "4"]%string)
    = (Err "Error: Unknown optimization type 'vectorized'"
         :: map Err (Hw1Main.usage_lines "hw1"),
       Exit 1).
Proof.
  assert (R : 0 < 4 <= max_dim) by (unfold max_dim; lia).
  intros report A B C. repeat match goal with |- _ /\ _ => split end.
  - now rewrite (@hw1_run_selected T SC clock _ 4).
  - cbn. tauto.
  - now rewrite (@hw1_run_default T SC clock _ 4).
  - now rewrite (@hw1_run_selected T SC clock _ 4).
  - now rewrite (@hw1_run_selected T SC clock _ 4).
  - now rewrite (@hw1_run_selected T SC clock _ 4).
  - now rewrite (@hw1_run_selected T SC clock _ 4).
Qed.

(** C4 (code defect): the [src/proj1] drivers reject a dimension that is zero,
    negative or not a number with a message on the error stream and status 1;
    [hw1.cpp] and [Mv.c] have no such test.  On "0" or "abc" they print the
    timing line on standard output and then read [C[0]] of an empty buffer;
    on "-5" [hw1.cpp] dies of the uncaught [std::length_error] of [B(n)]. *)
Theorem invalid_dimension_not_rejected (T : Type) (SC : Scalar T)
    (kernel : Z -> list T -> list T -> list T -> option (list T))
    (clock : nat -> T) (junk : nat -> nat -> T) (resolution : T) :
  let t := sub (clock 1%nat) (clock 0%nat) in
  run (Proj1Main.main kernel clock ["Mv"; "0"]%string)
    = ([Err "Matrix size must be a positive integer."], Exit 1) /\
  run (Proj1Main.main kernel clock ["Mv"; "abc"]%string)
    = ([Err "Matrix size must be a positive integer."], Exit 1) /\
  run (Proj1Main.main kernel clock ["Mv"; "-5"]%string)
    = ([Err "Matrix size must be a positive integer."], Exit 1) /\
  run (Hw1Main.main clock ["hw1"; "0"]%string)
    = ([OutMicros t one (Hw1Main.gflops 0 t)], Undefined) /\
  run (Hw1Main.main clock ["hw1"; "abc"]%string)
    = ([OutMicros t one (Hw1Main.gflops 0 t)], Undefined) /\
  run (Hw1Main.main clock ["hw1"; "-5"]%string) = ([], Terminated) /\
  run (MvCMain.main_c (heap_serving junk) clock resolution ["Mv"; "0"]%string)
    = ([OutMicros t resolution (MvCMain.gflops 0 t)], Undefined).
Proof.
  intros t. repeat split; reflexivity.
Qed.

(** C5 (code defect): when an allocation fails [CreateMatrix] prints the
    file and line and returns the null pointer; [main] does not test it and
    goes on.  With the third allocation failing, [memset] is handed the null
    pointer; with the first, [InitMatrix] stores through it.  The run is not
    aborted by the program: it reaches undefined behaviour. *)
Theorem allocation_failure_not_fatal (T : Type) (SC : Scalar T)
    (clock : nat -> T) (junk : nat -> nat -> T) (resolution : T) :
  run (MvCMain.main_c (heap_failing 2 junk) clock resolution ["Mv"; "3"]%string)
    = ([ErrAlloc "Mv.c" 16], Undefined) /\
  run (MvCMain.main_c (heap_failing 0 junk) clock resolution ["Mv"; "3"]%string)
    = ([ErrAlloc "Mv.c" 16], Undefined) /\
  run (MvCMain.main_cpp (heap_failing 2 junk) clock ["Mv"; "3"]%string)
    = ([ErrAlloc "Mv.cpp" 27], Undefined).
Proof. repeat split; reflexivity. Qed.

(** C8 (code defect): for N = 0 every kernel variant returns the empty
    vector without touching A or b, and the [src/proj1] checksum loop yields
    zero; but the reporting step of [Mv.c] and [hw1.cpp], which are the
    drivers that let N = 0 through, reads [C[N/2] = C[0]] of the empty
    buffer. *)
Theorem degenerate_dimension_report_out_of_bounds (T : Type) (SC : Scalar T)
    (clock : nat -> T) (junk : nat -> nat -> T) (resolution : T) :
  let t := sub (clock 1%nat) (clock 0%nat) in
  (forall v (A b : list T), kernel v 0 A b [] = Some []) /\
  checksum 0 (@nil T) = Some zero /\
  vec_get (@nil T) (Z.quot 0 2) = None /\
  run (MvCMain.main_c (heap_serving junk) clock resolution ["Mv"; "0"]%string)
    = ([OutMicros t resolution (MvCMain.gflops 0 t)], Undefined) /\
  run (Hw1Main.main clock ["hw1"; "0"]%string)
    = ([OutMicros t one (Hw1Main.gflops 0 t)], Undefined).
Proof.
  intros t. split; [|repeat split; reflexivity].
  intros v A b. destruct v; reflexivity.
Qed.

Section GeneratedValues.
Context {T : Type} {SC : Scalar T} {EA : ExactArith T}.

Lemma gen_A_at n i j :
  0 <= i < n -> 0 <= j < n ->
  vec_get (@gen_A T SC n) (i * n + j) = Some (div one (of_int (i + j + 2))).
Proof.
  intros Hi Hj. unfold gen_A. rewrite vec_get_tabulate by nia.
  destruct (@flat_index n i j Hj) as [-> ->]. now rewrite <- of_int_add.
Qed.

Lemma gen_A_c_at n i j :
  0 <= i < n -> 0 <= j < n ->
  vec_get (@gen_A_c T SC n) (i * n + j) = Some (div one (of_int (i + j + 2))).
Proof.
  intros Hi Hj. unfold gen_A_c. rewrite vec_get_tabulate by nia.
  now destruct (@flat_index n i j Hj) as [-> ->].
Qed.

Lemma gen_b1_at n i :
  0 <= i < n -> vec_get (@gen_b1 T SC n) i = Some (div one (of_int (i + 1))).
Proof.
  intros Hi. unfold gen_b1. rewrite vec_get_tabulate by lia.
  now rewrite of_int_add, of_int_one.
Qed.

Lemma gen_b2_at n i :
  0 <= i < n -> vec_get (@gen_b2 T SC n) i = Some (div one (of_int (i + 2))).
Proof.
  intros Hi. unfold gen_b2. rewrite vec_get_tabulate by lia.
  now rewrite of_int_add.
Qed.

Lemma gen_b_c_at n i :
  0 <= i < n -> vec_get (@gen_b_c T SC n) i = Some (div one (of_int (i + 2))).
Proof.
  intros Hi. unfold gen_b_c. rewrite vec_get_tabulate by lia.
  now rewrite Z.add_0_r.
Qed.
End GeneratedValues.

(** Past the largest dimension the generator loop has no result. *)
Lemma proj1_generate_overflow {T : Type} {SC : Scalar T} n (A b : list T) :
  max_dim < n -> Proj1Main.generate n A b = None.
Proof.
  intros Hn. unfold Proj1Main.generate.
  apply for_lt_None with (k := n - 1); [unfold max_dim in Hn; lia|].
  intros [A1 b1]. apply bind_None_r. intros b2.
  rewrite for_lt_None with (k := n - 1); [reflexivity|unfold max_dim in Hn; lia|].
  intros A2. unfold Int.mul, Int.add.
  destruct (Int.chk ((n - 1) * n)) as [r|] eqn:E; [|reflexivity].
  apply chk_Some in E. destruct E as [-> _]. cbn [bind].
  rewrite chk_above; [reflexivity|].
  unfold max_dim, Int.max_int in *. nia.
Qed.

(** C6 (amended): for every N with 0 < N <= 46340 the generators set
    A[i*N+j] = 1/(i+j+2) for all i, j in [0,N), and b[i] = 1/(i+1) in the
    [src/proj1] drivers, 1/(i+2) in [hw1.cpp] and [Mv.c]; each driver hands
    these same inputs to whichever kernel it runs. *)
Theorem generators_fill_inputs (T : Type) (SC : Scalar T) (EA : ExactArith T)
    (n : Z) (A0 b0 : list T) :
  0 < n <= max_dim ->
  Z.of_nat (length A0) = n * n ->
  Z.of_nat (length b0) = n ->
  (Proj1Main.generate n A0 b0 = Some (gen_A n, gen_b1 n) /\
   Hw1Main.generate n A0 b0 = Some (gen_A n, gen_b2 n) /\
   MvCMain.InitMatrix (MvCMain.Block A0) n n = Some (MvCMain.Block (gen_A_c n)) /\
   MvCMain.InitMatrix (MvCMain.Block b0) n 1 = Some (MvCMain.Block (gen_b_c n))) /\
  (forall i j, 0 <= i < n -> 0 <= j < n ->
     vec_get (@gen_A T SC n) (i * n + j) = Some (div one (of_int (i + j + 2))) /\
     vec_get (@gen_A_c T SC n) (i * n + j) = Some (div one (of_int (i + j + 2)))) /\
  (forall i, 0 <= i < n ->
     vec_get (@gen_b1 T SC n) i = Some (div one (of_int (i + 1))) /\
     vec_get (@gen_b2 T SC n) i = Some (div one (of_int (i + 2))) /\
     vec_get (@gen_b_c T SC n) i = Some (div one (of_int (i + 2)))) /\
  (forall kernel clock argv,
     length argv = 2%nat -> atoi (arg argv 1) = Some n ->
     run (Proj1Main.main kernel clock argv)
     = proj1_report clock n
         (kernel n (gen_A n) (gen_b1 n) (repeat zero (Z.to_nat n)))) /\
  (forall clock argv,
     length argv = 3%nat -> atoi (arg argv 2) = Some n ->
     run (Hw1Main.main clock argv)
     = let A := gen_A n in
       let B := gen_b2 n in
       let C := repeat zero (Z.to_nat n) in
       if String.eqb (arg argv 1) "avx2" then
         micros_report clock one Hw1Main.gflops n (Hw1.Mv_mult_avx2 n A B C)
       else if String.eqb (arg argv 1) "unroll" then
         micros_report clock one Hw1Main.gflops n (Hw1.Mv_mult_unrolled n A B C)
       else if String.eqb (arg argv 1) "interchange" then
         micros_report clock one Hw1Main.gflops n (Hw1.Mv_mult_interchanged n A B C)
       else
         (Err ("Error: Unknown optimization type '" ++ arg argv 1 ++ "'")%string
            :: map Err (Hw1Main.usage_lines (arg argv 0)),
          Exit 1)).
Proof.
  intros Hn HA Hb. repeat split.
  - apply proj1_generate_ok; auto; lia.
  - apply hw1_generate_ok; auto; lia.
  - now apply InitMatrix_square.
  - apply InitMatrix_column; auto; lia.
  - now apply gen_A_at.
  - now apply gen_A_c_at.
  - now apply gen_b1_at.
  - now apply gen_b2_at.
  - now apply gen_b_c_at.
  - intros kernel clock argv Hargc Ha. now apply proj1_run.
  - intros clock argv Hargc Ha. now apply hw1_run_selected.
Qed.

(** The [src/proj1] generator for N = 2. *)
Lemma generators_fill_inputs_witness :
  Proj1Main.generate 2 (rationals [0; 0; 0; 0]) (rationals [0; 0])
  = Some (gen_A 2, gen_b1 2).
Proof.
  apply (@generators_fill_inputs Qc Qc_Scalar Qc_ExactArith 2
           (rationals [0; 0; 0; 0]) (rationals [0; 0]));
    [unfold max_dim; lia | reflexivity | reflexivity].
Defined.

(** C6 as stated fails at N = 46341: the generator loop reaches the index
    [46340 * 46341 + 41708 = 2^31] and has no result; the driver is undefined
    already at the size [n * n] of A. *)
Lemma generators_fill_inputs_counterexample :
  0 < first_bad_dim /\
  Z.of_nat (length zeros_A) = first_bad_dim * first_bad_dim /\
  Z.of_nat (length zeros_b) = first_bad_dim /\
  Proj1Main.generate first_bad_dim zeros_A zeros_b = None /\
  run (Proj1Main.main_Mv ticks ["Mv"; "46341"]%string) = ([], Undefined).
Proof.
  split; [reflexivity|].
  split; [unfold zeros_A; rewrite repeat_length; apply Z2Nat.id; discriminate|].
  split; [unfold zeros_b; rewrite repeat_length; apply Z2Nat.id; discriminate|].
  split; [apply proj1_generate_overflow; reflexivity|].
  reflexivity.
Qed.

(** ** What a successful run reports *)

Section ReportFacts.
Context {T : Type} {SC : Scalar T}.

Lemma checksum_ok n (c : list T) :
  0 <= n -> Z.of_nat (length c) = n ->
  checksum n c = Some (sigma (elt c) 0 (Z.to_nat n)).
Proof.
  intros Hn Hc. unfold checksum, for_lt, sigma. rewrite Z.sub_0_r.
  assert (G : forall cnt, (cnt <= Z.to_nat n)%nat ->
    for_count cnt 0 (fun i sum_c => ci <- vec_get c i ;; Some (add sum_c ci)) zero
    = Some (sigma_from zero (elt c) 0 cnt)).
  { induction cnt as [|cnt IH]; intros Hcnt; [reflexivity|].
    rewrite for_count_S, IH by lia. cbn [bind sigma_from].
    now rewrite vec_get_elt by lia. }
  apply G. lia.
Qed.

Lemma sample_ok n (A b : list T) :
  0 < n ->
  vec_get (product A b n) (Z.quot n 2) = Some (dot_row A b n (Z.quot n 2)).
Proof.
  intros Hn. unfold product. apply vec_get_tabulate.
  rewrite Z.quot_div_nonneg by lia.
  pose proof (Z.div_pos n 2). pose proof (Z.div_lt n 2). lia.
Qed.
End ReportFacts.

(** The throughput expression [2.0*N*N*1e-3/t], with [t] in microseconds, is
    [2 N^2 10^-9] over the elapsed time in seconds [t 10^-6]. *)
Lemma gflops_exact (n : Z) (t : Qc) :
  div (mul (mul (mul (of_int 2) (of_int n)) (of_int n)) (div one (of_int 1000))) t
  = div (mul (mul (mul (of_int 2) (of_int n)) (of_int n))
             (div one (of_int 1000000000)))
        (mul t (div one (of_int 1000000))).
Proof.
  cbn [div mul one of_int Qc_Scalar].
  assert (E9 : Q2Qc (inject_Z 1000000000)
               = (Q2Qc (inject_Z 1000) * Q2Qc (inject_Z 1000000))%Qc)
    by (apply Qc_is_canon; reflexivity).
  assert (N3 : Q2Qc (inject_Z 1000) <> 0%Qc) by discriminate.
  assert (N6 : Q2Qc (inject_Z 1000000) <> 0%Qc) by discriminate.
  rewrite E9. clear E9.
  set (k := Q2Qc (inject_Z 1000)) in *.
  set (m := Q2Qc (inject_Z 1000000)) in *.
  set (x := (Q2Qc (inject_Z 2) * Q2Qc (inject_Z n) * Q2Qc (inject_Z n))%Qc).
  clearbody k m x.
  destruct (Qc_eq_dec t 0) as [->|Nt].
  - unfold Qcdiv. rewrite Qcmult_0_l.
    change (/ 0)%Qc with 0%Qc. now rewrite !Qcmult_0_r.
  - field. repeat split; assumption.
Qed.

Lemma generated_lengths {T : Type} {SC : Scalar T} n :
  0 <= n ->
  Z.of_nat (length (@gen_A T SC n)) = n * n /\
  Z.of_nat (length (@gen_A_c T SC n)) = n * n /\
  Z.of_nat (length (@gen_b1 T SC n)) = n /\
  Z.of_nat (length (@gen_b2 T SC n)) = n /\
  Z.of_nat (length (@gen_b_c T SC n)) = n.
Proof.
  intros Hn. unfold gen_A, gen_A_c, gen_b1, gen_b2, gen_b_c.
  rewrite !length_tabulate by nia. auto.
Qed.

(** C7 (amended): on every successful run (0 < N <= 46340, allocations
    served) [Mv.c] and [hw1.cpp] print the elapsed time in microseconds, the
    timer resolution, the throughput, which in exact arithmetic is
    2*N^2*10^-9 divided by the elapsed time in seconds, and the sample
    C[N/2], and exit with status 0; the [src/proj1] drivers print n, the
    elapsed time in seconds and the sum of all elements of c, and exit with
    status 0. *)
Theorem successful_run_report (n : Z) (clock : nat -> Qc) (argv : list string) :
  0 < n <= max_dim ->
  length argv = 2%nat ->
  atoi (arg argv 1) = Some n ->
  let t := sub (clock 1%nat) (clock 0%nat) in
  (forall file line h resolution,
     MvCMain.alloc_ok h 0 = true ->
     MvCMain.alloc_ok h 1 = true ->
     MvCMain.alloc_ok h 2 = true ->
     run (MvCMain.main file line h clock resolution argv)
     = ([OutMicros t resolution (spec_gflops n t);
         OutSample (dot_row (gen_A_c n) (gen_b_c n) n (Z.quot n 2))],
        Exit 0)) /\
  run (Hw1Main.main clock argv)
    = ([OutMicros t one (spec_gflops n t);
        OutSample (dot_row (gen_A n) (gen_b2 n) n (Z.quot n 2))],
       Exit 0) /\
  (forall sel, In sel ["avx2"; "unroll"; "interchange"]%string ->
     run (Hw1Main.main clock [arg argv 0; sel; arg argv 1])
     = ([OutMicros t one (spec_gflops n t);
         OutSample (dot_row (gen_A n) (gen_b2 n) n (Z.quot n 2))],
        Exit 0)) /\
  (forall v,
     run (Proj1Main.main (kernel v) clock argv)
     = ([OutN n; OutSeconds t;
         OutChecksum (sigma (elt (product (gen_A n) (gen_b1 n) n)) 0 (Z.to_nat n))],
        Exit 0)).
Proof.
  intros Hn Hargc Ha t.
  destruct (@generated_lengths Qc Qc_Scalar n ltac:(lia)) as (LA & LAc & L1 & L2 & Lc).
  assert (Hn' : 0 <= n <= max_dim) by lia.
  assert (Lz : Z.of_nat (length (repeat (@zero Qc _) (Z.to_nat n))) = n)
    by (apply length_zeros; lia).
  repeat split.
  - intros file line h resolution H0 H1 H2.
    rewrite (mvc_run file line h clock resolution argv Hargc Ha Hn H0 H1 H2).
    rewrite MatVecMult_in_range by auto. unfold micros_report.
    rewrite sample_ok by lia. unfold MvCMain.gflops. now rewrite gflops_exact.
  - rewrite (hw1_run_default clock argv Hargc Ha Hn).
    rewrite Hw1_avx2_in_range by auto. unfold micros_report.
    rewrite sample_ok by lia. unfold Hw1Main.gflops. now rewrite gflops_exact.
  - intros sel Hsel.
    rewrite (@hw1_run_selected Qc _ clock _ n); [|reflexivity|exact Ha|exact Hn].
    cbv zeta. unfold arg at 1 2 3. cbn [nth].
    destruct Hsel as [<-|[<-|[<-|[]]]]; cbn [String.eqb Ascii.eqb Bool.eqb andb];
      cbv iota;
      rewrite ?Hw1_avx2_in_range, ?Hw1_unrolled_in_range, ?Hw1_interchanged_in_range
        by auto;
      unfold micros_report; rewrite sample_ok by lia;
      unfold Hw1Main.gflops; now rewrite gflops_exact.
  - intros v. rewrite (proj1_run (kernel v) clock argv Hargc Ha Hn).
    rewrite kernel_in_range by auto. unfold proj1_report.
    rewrite checksum_ok; [reflexivity|lia|].
    unfold product. apply length_tabulate. lia.
Qed.

(** [hw1.cpp] invoked with the dimension 3 alone. *)
Lemma successful_run_report_witness :
  run (Hw1Main.main ticks ["hw1"; "3"]%string)
  = ([OutMicros (sub (ticks 1%nat) (ticks 0%nat)) one
        (spec_gflops 3 (sub (ticks 1%nat) (ticks 0%nat)));
      OutSample (dot_row (gen_A 3) (gen_b2 3) 3 (Z.quot 3 2))],
     Exit 0).
Proof.
  refine (proj1 (proj2 (@successful_run_report 3 ticks ["hw1"; "3"]%string _ _ _)));
    [unfold max_dim; lia | reflexivity | reflexivity].
Defined.

(** C7 as stated fails for the [src/proj1] drivers: a successful run of the
    baseline driver prints no throughput. *)
Lemma successful_run_report_counterexample :
  snd (run (Proj1Main.main_Mv ticks ["Mv"; "2"]%string)) = Exit 0 /\
  existsb is_throughput (fst (run (Proj1Main.main_Mv ticks ["Mv"; "2"]%string)))
  = false.
Proof. split; vm_compute; reflexivity. Qed.

(** ** Dimensions and pointers that [main] does not check *)

Section Unchecked.
Context {T : Type} {SC : Scalar T}.

Lemma atoi_fits s n : atoi s = Some n -> Int.min_int <= n <= Int.max_int.
Proof.
  unfold atoi. intros H.
  destruct (skip_space s) as [|c r]; [apply chk_Some in H; destruct H; lia|].
  destruct c as [[] [] [] [] [] [] [] []];
    apply chk_Some in H; destruct H as [-> H]; exact H.
Qed.

Lemma InitMatrix_empty (M : @MvCMain.Matrix T) Rows Cols :
  Rows <= 0 -> MvCMain.InitMatrix M Rows Cols = Some M.
Proof. intros H. unfold MvCMain.InitMatrix. now apply for_lt_empty. Qed.

Lemma for_lt_first_None {S : Type} lo hi (body : Z -> S -> option S) s :
  lo < hi -> body lo s = None -> for_lt lo hi body s = None.
Proof.
  intros H E. unfold for_lt.
  destruct (Z.to_nat (hi - lo)) as [|cnt] eqn:Ec; [lia|].
  cbn [for_count]. now rewrite E.
Qed.

(** [InitMatrix] stores through the pointer in its first iteration. *)
Lemma InitMatrix_null Rows Cols :
  0 < Rows -> 0 < Cols -> MvCMain.InitMatrix (@MvCMain.Null T) Rows Cols = None.
Proof.
  intros Hr Hc. unfold MvCMain.InitMatrix.
  apply for_lt_first_None; [exact Hr|].
  apply for_lt_first_None; [exact Hc|]. reflexivity.
Qed.

(** [Mv.c] on a valid dimension when an allocation fails: each failure is
    reported, nothing is printed on standard output, and [main] goes on to
    use the null pointer. *)
Lemma mvc_run_failing file line (h : @MvCMain.heap T) clock resolution argv n :
  length argv = 2%nat -> atoi (arg argv 1) = Some n -> 0 < n <= max_dim ->
  MvCMain.alloc_ok h 0 && MvCMain.alloc_ok h 1 && MvCMain.alloc_ok h 2 = false ->
  run (MvCMain.main file line h clock resolution argv)
  = (alloc_errors file line h, Undefined).
Proof.
  intros Hargc Ha Hr Hfail. unfold MvCMain.main, alloc_errors.
  rewrite Hargc, Ha. cbn [Nat.eqb negb lift pbind ret app filter map].
  unfold MvCMain.CreateMatrix.
  assert (Hone : Int.mul n 1 = Some (n * 1)).
  { unfold Int.mul. apply chk_fits.
    unfold Int.min_int, Int.max_int, max_dim in *. lia. }
  rewrite dim_squared_fits, Hone by lia. cbn [lift pbind ret app].
  unfold MvCMain.malloc.
  replace (n * n <? 0) with false by (symmetry; apply Z.ltb_ge; nia).
  replace (n * 1 <? 0) with false by (symmetry; apply Z.ltb_ge; lia).
  destruct (MvCMain.alloc_ok h 0) eqn:E0, (MvCMain.alloc_ok h 1) eqn:E1,
           (MvCMain.alloc_ok h 2) eqn:E2; try discriminate Hfail;
    cbn [negb pbind ret emit app map];
    rewrite ?InitMatrix_square by (try exact Hr; apply length_junk; nia);
    rewrite ?InitMatrix_null by lia;
    cbn [lift pbind ret halt app];
    rewrite ?InitMatrix_column by (try exact Hr; apply length_junk; lia);
    rewrite ?InitMatrix_null by lia;
    reflexivity.
Qed.

End Unchecked.

(** ** Every kernel has a result while the indices fit, in any arithmetic *)

Section KernelsDefined.
Context {T : Type} {SC : Scalar T}.
Variables (n : Z) (A b : list T).
Hypothesis Hn : 0 <= n <= max_dim.
Hypothesis HA : Z.of_nat (length A) = n * n.
Hypothesis Hb : Z.of_nat (length b) = n.





End KernelsDefined.

(** ** Two runs on the same command line *)

Section RunsReport.
Context {T : Type} {SC : Scalar T}.



End RunsReport.




(** * Further properties of the kernels *)

Section OrderPreserving.
Context {T : Type} {SC : Scalar T}.

Lemma order_preserving_in_range v n (A b c : list T) :
  order_preserving v = true -> 0 <= n <= max_dim ->
  Z.of_nat (length A) = n * n -> Z.of_nat (length b) = n ->
  Z.of_nat (length c) = n ->
  kernel v n A b c = Some (product A b n).
Proof.
  intros Hv Hn HA Hb Hc. destruct v; try discriminate Hv; cbn [kernel].
  - now apply Mv_mult_in_range.
  - now apply Mv_mult_interchanged_in_range.
  - now apply Hw1_interchanged_in_range.
  - now apply Hw1_unrolled_in_range.
  - now apply MatVecMult_in_range.
Qed.
End OrderPreserving.

(** X1: the interchanged kernels of [interchange.cpp], [hw1.cpp] and [Mv.c]
    and the four-statement unrolled kernel of [hw1.cpp] add the terms of
    every row to the running sum in the same order as the baseline, so they
    return exactly the baseline's result in any element arithmetic, with no
    algebraic law assumed (rounding included); up to dimension 46340 that
    result is the product summed left to right from zero. *)
Theorem order_preserving_kernels_exact (T : Type) (SC : Scalar T)
    (v : variant) (n : Z) (A b c : list T) :
  order_preserving v = true ->
  0 <= n ->
  Z.of_nat (length A) = n * n ->
  Z.of_nat (length b) = n ->
  Z.of_nat (length c) = n ->
  kernel v n A b c = kernel Baseline n A b c /\
  (n <= max_dim -> kernel v n A b c = Some (product A b n)).
Proof.
  intros Hv Hn HA Hb Hc. destruct (Z_le_gt_dec n max_dim) as [Le|Gt].
  - rewrite (@order_preserving_in_range T SC v n A b c) by (auto; lia).
    rewrite (@order_preserving_in_range T SC Baseline n A b c) by (auto; lia).
    auto.
  - rewrite !kernel_overflow by lia. split; [reflexivity|lia].
Qed.

(** An instance. *)
Lemma order_preserving_kernels_exact_witness :
  kernel Unrolled4 5 (rationals (map Z.of_nat (seq 0 25)))
         (rationals [1; 2; 3; 4; 5]) (rationals [9; 9; 9; 9; 9])
  = kernel Baseline 5 (rationals (map Z.of_nat (seq 0 25)))
           (rationals [1; 2; 3; 4; 5]) (rationals [9; 9; 9; 9; 9]).
Proof.
  refine (proj1 (@order_preserving_kernels_exact Qc Qc_Scalar Unrolled4 5 _ _ _ _ _ _ _ _));
    [reflexivity | lia | reflexivity | reflexivity | reflexivity].
Defined.

Section ShortRows.
Context {T : Type} {SC : Scalar T}.
Variables (n : Z) (A b : list T).
Hypothesis Hn : 0 <= n <= max_dim.
Hypothesis HA : Z.of_nat (length A) = n * n.
Hypothesis Hb : Z.of_nat (length b) = n.

Lemma short_row {S : Type} (W : positive) (step : Z -> S -> option S)
    (val : S -> T) i s0 (c : list T) :
  n < Zpos W -> Zpos W <= Int.max_int -> val s0 = zero ->
  0 <= i < n -> Z.of_nat (length c) = n ->
  (bound <- Int.sub n (Zpos W) ;;
   '(k, s) <- for_stride W bound step 0 s0 ;;
   sum <- for_lt k n (sum_step A b n i) (val s) ;;
   vec_set c i sum) = Some (list_upd c (Z.to_nat i) (dot_row A b n i)).
Proof.
  intros Hshort HW Hz Hi Hc. unfold Int.sub.
  rewrite chk_fits by (unfold Int.min_int, Int.max_int in *; lia).
  cbn [bind]. rewrite for_stride_eq.
  replace (0 <=? n - Zpos W) with false by (symmetry; apply Z.leb_gt; lia).
  cbn [bind]. unfold for_lt. rewrite (sum_loop A b Hn HA Hb) by lia.
  cbn [bind]. rewrite vec_set_in_range by lia.
  rewrite Hz, Z.sub_0_r. reflexivity.
Qed.
End ShortRows.

(** X2: a dimension below the stride of a kernel's main loop (8 for
    [unroll.cpp] and the AVX2 kernel of [hw1.cpp], 4 for [avx2.cpp],
    [optimized.cpp] and the unrolled kernel of [hw1.cpp]) leaves every row to
    the remainder loop, and the kernel returns exactly the baseline's result
    in any arithmetic in which [0 + 0 = 0] (the sum of the lanes of the
    cleared register). *)
Theorem rows_shorter_than_stride (T : Type) (SC : Scalar T)
    (v : variant) (n : Z) (A b c : list T) :
  add zero zero = @zero T SC ->
  0 <= n < stride v ->
  Z.of_nat (length A) = n * n ->
  Z.of_nat (length b) = n ->
  Z.of_nat (length c) = n ->
  kernel v n A b c = kernel Baseline n A b c.
Proof.
  intros Hz Hn HA Hb Hc.
  assert (Hr : 0 <= n <= max_dim)
    by (unfold max_dim; destruct v; cbn [stride] in Hn; lia).
  cbn [kernel]. rewrite (Mv_mult_in_range A b Hr HA Hb c Hc).
  destruct v; cbn [kernel stride] in *.
  - now apply Mv_mult_in_range.
  - now apply Mv_mult_interchanged_in_range.
  - unfold Proj1.Mv_mult_unrolled, product.
    apply rows_overwritten; [lia|exact Hc|]. intros i c' Hi Hc'.
    apply (@short_row T SC n A b Hr HA Hb T 8 (Proj1.unroll8_step A b n i) (fun s => s));
      auto; unfold Int.max_int; lia.
  - unfold Proj1.Mv_mult_optimized, product.
    apply rows_overwritten; [lia|exact Hc|]. intros i c' Hi Hc'.
    apply (@short_row T SC n A b Hr HA Hb (list T) 4 (fmadd_step 4 A b n i) hsum);
      auto; try (unfold Int.max_int; lia).
    cbn. now rewrite !Hz.
  - now apply Hw1_interchanged_in_range.
  - now apply Hw1_unrolled_in_range.
  - unfold Hw1.Mv_mult_avx2, product.
    apply rows_overwritten; [lia|exact Hc|]. intros i c' Hi Hc'.
    apply (@short_row T SC n A b Hr HA Hb (list T) 8 (fmadd_step 8 A b n i) hsum);
      auto; try (unfold Int.max_int; lia).
    cbn. now rewrite !Hz.
  - now apply MatVecMult_in_range.
Qed.

(** An instance. *)
Lemma rows_shorter_than_stride_witness :
  kernel Vectorized8 3 (rationals [1; 2; 3; 4; 5; 6; 7; 8; 9])
         (rationals [1; 1; 1]) (rationals [0; 0; 0])
  = kernel Baseline 3 (rationals [1; 2; 3; 4; 5; 6; 7; 8; 9])
           (rationals [1; 1; 1]) (rationals [0; 0; 0]).
Proof.
  apply (@rows_shorter_than_stride Qc Qc_Scalar Vectorized8 3);
    [reflexivity | cbn [stride]; lia | reflexivity | reflexivity | reflexivity].
Defined.

(** ** What a kernel leaves alone *)

Lemma for_count_keeps {S : Type} (P : S -> Prop) cnt i
    (body : Z -> S -> option S) s s' :
  (forall j t t', (j < cnt)%nat -> P t -> body (i + Z.of_nat j) t = Some t' -> P t') ->
  P s -> for_count cnt i body s = Some s' -> P s'.
Proof.
  revert s'. induction cnt as [|c IH]; intros s' Hstep H0 E.
  - injection E as <-. exact H0.
  - rewrite for_count_S in E. apply bind_Some in E. destruct E as [s1 [E1 E2]].
    apply (Hstep c s1 s'); [lia| |exact E2].
    apply IH; auto. intros j t t' Hj. apply Hstep. lia.
Qed.

Lemma for_lt_keeps {S : Type} (P : S -> Prop) lo hi
    (body : Z -> S -> option S) s s' :
  (forall k t t', lo <= k < hi -> P t -> body k t = Some t' -> P t') ->
  P s -> for_lt lo hi body s = Some s' -> P s'.
Proof.
  intros Hstep H0 E. unfold for_lt in E.
  apply (for_count_keeps P) in E; auto.
  intros j t t' Hj. apply Hstep. lia.
Qed.

Section Frame.
Context {T : Type} {SC : Scalar T}.
Variables (n : Z) (A b c : list T).

Lemma same_outside_refl : same_outside n c c.
Proof. split; auto. Qed.

Lemma vec_set_keeps (s s' : list T) i x :
  i < n -> same_outside n c s -> vec_set s i x = Some s' -> same_outside n c s'.
Proof.
  intros Hi [Hl Hs] E. unfold vec_set in E.
  destruct ((0 <=? i) && (i <? Z.of_nat (length s))) eqn:R; [|discriminate].
  injection E as <-. apply andb_true_iff in R. destruct R as [R1 R2].
  apply Z.leb_le in R1. split; [now rewrite length_list_upd|].
  intros m Hm. rewrite vec_get_list_upd_neq by lia. now apply Hs.
Qed.

Lemma accum_keeps (s s' : list T) d i k :
  i < n -> same_outside n c s -> accum A b d i k s = Some s' -> same_outside n c s'.
Proof.
  intros Hi Hs E. unfold accum in E.
  apply bind_Some in E. destruct E as [t [_ E]].
  apply bind_Some in E. destruct E as [ci [_ E]].
  eapply vec_set_keeps; eauto.
Qed.

Lemma interchanged_loops_keep (s s' : list T) :
  same_outside n c s ->
  for_lt 0 n (fun k c => for_lt 0 n (fun i c => accum A b n i k c) c) s = Some s' ->
  same_outside n c s'.
Proof.
  intros Hs E. apply (for_lt_keeps (same_outside n c)) in E; auto.
  intros k t t' Hk Ht E'. apply (for_lt_keeps (same_outside n c)) in E'; auto.
  intros i u u' Hi Hu Eu. eapply accum_keeps; eauto; lia.
Qed.

Lemma strided_row_keeps {S : Type} (W : positive) (step : Z -> S -> option S)
    (val : S -> T) s0 i (s s' : list T) :
  i < n -> same_outside n c s ->
  (bound <- Int.sub n (Zpos W) ;;
   '(k, st) <- for_stride W bound step 0 s0 ;;
   sum <- for_lt k n (sum_step A b n i) (val st) ;;
   vec_set s i sum) = Some s' ->
  same_outside n c s'.
Proof.
  intros Hi Hs E.
  apply bind_Some in E. destruct E as [bound [_ E]].
  apply bind_Some in E. destruct E as [[k st] [_ E]].
  apply bind_Some in E. destruct E as [sum [_ E]].
  eapply vec_set_keeps; eauto.
Qed.

Lemma memset_zero_keeps (s : list T) :
  MvC.memset_zero c n = Some s -> same_outside n c s.
Proof.
  unfold MvC.memset_zero.
  destruct ((0 <=? n) && (n <=? Z.of_nat (length c))) eqn:R; [|discriminate].
  intros E. injection E as <-. apply andb_true_iff in R. destruct R as [R1 R2].
  apply Z.leb_le in R1. apply Z.leb_le in R2. split.
  - rewrite length_app, repeat_length, length_skipn. lia.
  - intros m Hm. unfold vec_get. destruct (m <? 0); [reflexivity|].
    rewrite nth_error_app2 by (rewrite repeat_length; lia).
    rewrite repeat_length, nth_error_skipn. f_equal. lia.
Qed.
End Frame.

(** X3: a kernel that returns leaves the output vector with its length, and
    with its elements from index [n] on as they were; the interchanged kernel
    of [hw1.cpp] is the exception, it has cleared them ([std::fill] over the
    whole vector). *)
Theorem kernel_leaves_rest_of_output (T : Type) (SC : Scalar T)
    (v : variant) (n : Z) (A b c c' : list T) :
  kernel v n A b c = Some c' ->
  same_outside n (outside_rows v c) c'.
Proof.
  destruct v; cbn [kernel outside_rows]; intros E.
  - apply (for_lt_keeps (same_outside n c)) in E; auto using same_outside_refl.
    intros i t t' Hi Ht E'. apply bind_Some in E'. destruct E' as [t1 [E1 E2]].
    assert (Ht1 : same_outside n c t1) by (eapply vec_set_keeps; eauto; lia).
    apply (for_lt_keeps (same_outside n c)) in E2; auto.
    intros k u u' Hk Hu Eu. eapply accum_keeps; eauto; lia.
  - unfold Proj1.Mv_mult_interchanged in E.
    apply bind_Some in E. destruct E as [c0 [E0 E]].
    eapply interchanged_loops_keep; [|exact E].
    apply (for_lt_keeps (same_outside n c)) in E0; auto using same_outside_refl.
    intros i t t' Hi Ht E'. eapply vec_set_keeps; eauto; lia.
  - apply (for_lt_keeps (same_outside n c)) in E; auto using same_outside_refl.
    intros i t t' Hi Ht E'. eapply strided_row_keeps with (val := fun s => s); eauto; lia.
  - apply (for_lt_keeps (same_outside n c)) in E; auto using same_outside_refl.
    intros i t t' Hi Ht E'. eapply strided_row_keeps with (val := hsum); eauto; lia.
  - eapply interchanged_loops_keep; [|exact E]. apply same_outside_refl.
  - apply (for_lt_keeps (same_outside n c)) in E; auto using same_outside_refl.
    intros i t t' Hi Ht E'. eapply strided_row_keeps with (val := fun s => s); eauto; lia.
  - apply (for_lt_keeps (same_outside n c)) in E; auto using same_outside_refl.
    intros i t t' Hi Ht E'. eapply strided_row_keeps with (val := hsum); eauto; lia.
  - unfold MvC.MatVecMult in E.
    apply bind_Some in E. destruct E as [c0 [E0 E]].
    eapply interchanged_loops_keep; [|exact E]. now apply memset_zero_keeps.
Qed.

(** An instance. *)
Lemma kernel_leaves_rest_of_output_witness :
  same_outside 2 (outside_rows Interchanged_hw1 (rationals [7; 8; 9; 9]))
    (rationals [17; 39; 0; 0]).
Proof.
  apply (@kernel_leaves_rest_of_output Qc Qc_Scalar Interchanged_hw1 2
           (rationals [1; 2; 3; 4]) (rationals [5; 6])).
  vm_compute. reflexivity.
Defined.

(** ** Buffers shorter than the dimension asks for *)

(** A loop whose states keep [P] and one of whose iterations cannot succeed
    on a state with [P]. *)
Lemma for_count_None_inv {S : Type} (P : S -> Prop) cnt i
    (body : Z -> S -> option S) s j :
  P s ->
  (forall m t t', (m < cnt)%nat -> P t -> body (i + Z.of_nat m) t = Some t' -> P t') ->
  (j < cnt)%nat -> (forall t, P t -> body (i + Z.of_nat j) t = None) ->
  for_count cnt i body s = None.
Proof.
  revert i s j. induction cnt as [|c IH]; intros i s j H0 Hkeep Hj Hbad; [lia|].
  cbn [for_count]. destruct j as [|j].
  - rewrite Z.add_0_r in Hbad. now rewrite Hbad.
  - destruct (body i s) as [s1|] eqn:E; cbn [bind]; [|reflexivity].
    apply (IH _ _ j).
    + apply (Hkeep O s s1); [lia|exact H0|]. now rewrite Z.add_0_r.
    + intros m t t' Hm Ht Et. apply (Hkeep (Datatypes.S m) t t'); [lia|exact Ht|].
      rewrite <- Et. f_equal. lia.
    + lia.
    + intros t Ht. rewrite <- (Hbad t Ht). f_equal. lia.
Qed.

Lemma for_lt_None_inv {S : Type} (P : S -> Prop) lo hi
    (body : Z -> S -> option S) s k :
  P s ->
  (forall m t t', lo <= m < hi -> P t -> body m t = Some t' -> P t') ->
  lo <= k < hi -> (forall t, P t -> body k t = None) ->
  for_lt lo hi body s = None.
Proof.
  intros H0 Hkeep Hk Hbad. unfold for_lt.
  apply for_count_None_inv with (P := P) (j := Z.to_nat (k - lo)); auto.
  - intros m t t' Hm. apply Hkeep. lia.
  - lia.
  - intros t Ht. replace (lo + Z.of_nat (Z.to_nat (k - lo))) with k by lia. auto.
Qed.

(** A strided loop that reaches an iteration which cannot succeed. *)
Lemma for_stride_None {S : Type} W bound (body : Z -> S -> option S) k s k0 :
  k <= k0 <= bound -> (k0 - k) mod Zpos W = 0 -> (forall s, body k0 s = None) ->
  for_stride W bound body k s = None.
Proof.
  remember (Z.to_nat (k0 - k)) as d eqn:Ed.
  revert k s Ed. induction d as [d IH] using lt_wf_ind. intros k s Ed Hk Hm Hbad.
  rewrite for_stride_eq.
  replace (k <=? bound) with true by (symmetry; apply Z.leb_le; lia).
  destruct (Z.eq_dec k k0) as [->|N]; [now rewrite Hbad|].
  destruct (body k s) as [s1|]; cbn [bind]; [|reflexivity].
  assert (Hq : k + Zpos W <= k0).
  { apply Z.mod_divide in Hm; [|lia]. destruct Hm as [q Hq].
    assert (0 < q) by nia. nia. }
  apply (IH (Z.to_nat (k0 - (k + Zpos W)))); auto; try lia.
  replace (k0 - (k + Zpos W)) with (k0 - k + (-1) * Zpos W) by lia.
  now rewrite Z.mod_add by lia.
Qed.

Lemma vec_get_None {T : Type} (v : list T) i :
  Z.of_nat (length v) <= i -> vec_get v i = None.
Proof.
  intros H. unfold vec_get. destruct (i <? 0); [reflexivity|].
  apply nth_error_None. lia.
Qed.

Lemma vec_set_None {T : Type} (v : list T) i x :
  Z.of_nat (length v) <= i -> vec_set v i x = None.
Proof.
  intros H. unfold vec_set.
  replace (i <? Z.of_nat (length v)) with false by (symmetry; apply Z.ltb_ge; lia).
  now rewrite andb_false_r.
Qed.

Section ShortBuffers.
Context {T : Type} {SC : Scalar T}.
Variables (n : Z) (A b : list T).

Lemma prod_missing i p : missing A b n i p -> prod A b n i p = None.
Proof.
  intros (Hi & Hp & H). unfold prod, Int.mul, Int.add.
  destruct (Int.chk (i * n)) as [r|] eqn:E1; [|reflexivity].
  apply chk_Some in E1. destruct E1 as [-> _]. cbn [bind].
  destruct (Int.chk (i * n + p)) as [r|] eqn:E2; [|reflexivity].
  apply chk_Some in E2. destruct E2 as [-> _]. cbn [bind].
  destruct H as [H|H].
  - rewrite (vec_get_None b H). destruct (vec_get A _); reflexivity.
  - now rewrite (vec_get_None A H).
Qed.

Lemma prod_off_missing i k j : missing A b n i (k + j) -> prod_off A b n i k j = None.
Proof.
  intros (Hi & Hp & H). unfold prod_off, Int.mul, Int.add.
  destruct (Int.chk (i * n)) as [r|] eqn:E1; [|reflexivity].
  apply chk_Some in E1. destruct E1 as [-> _]. cbn [bind].
  destruct (Int.chk (i * n + k)) as [r|] eqn:E2; [|reflexivity].
  apply chk_Some in E2. destruct E2 as [-> _]. cbn [bind].
  destruct (Int.chk (i * n + k + j)) as [r|] eqn:E3; [|reflexivity].
  apply chk_Some in E3. destruct E3 as [-> _]. cbn [bind].
  destruct (vec_get A (i * n + k + j)) as [a|] eqn:Ea; [|reflexivity].
  cbn [bind].
  destruct (Int.chk (k + j)) as [r|] eqn:E4; [|reflexivity].
  apply chk_Some in E4. destruct E4 as [-> _]. cbn [bind].
  destruct H as [H|H].
  - now rewrite (vec_get_None b H).
  - rewrite vec_get_None in Ea by lia. discriminate.
Qed.

Lemma sum_step_missing i p s : missing A b n i p -> sum_step A b n i p s = None.
Proof. intros H. unfold sum_step. now rewrite prod_missing. Qed.

Lemma accum_missing i p c : missing A b n i p -> accum A b n i p c = None.
Proof. intros H. unfold accum. now rewrite prod_missing. Qed.

Lemma loadu_short (L : nat) (v : list T) idx :
  (0 < L)%nat -> Z.of_nat (length v) < idx + Z.of_nat L -> loadu L v idx = None.
Proof.
  intros HL H. unfold loadu. destruct (idx <? 0) eqn:E; [reflexivity|].
  apply Z.ltb_ge in E. rewrite length_firstn, length_skipn.
  destruct (Nat.eqb_spec (Init.Nat.min L (length v - Z.to_nat idx)) L) as [Q|Q];
    [lia|reflexivity].
Qed.

Lemma fmadd_step_missing (L : nat) i k p v :
  missing A b n i p -> k <= p < k + Z.of_nat L -> fmadd_step L A b n i k v = None.
Proof.
  intros (Hi & Hp & H) Hk. unfold fmadd_step, Int.mul, Int.add.
  destruct (Int.chk (i * n)) as [r|] eqn:E1; [|reflexivity].
  apply chk_Some in E1. destruct E1 as [-> _]. cbn [bind].
  destruct (Int.chk (i * n + k)) as [r|] eqn:E2; [|reflexivity].
  apply chk_Some in E2. destruct E2 as [-> _]. cbn [bind].
  destruct H as [H|H].
  - rewrite (@loadu_short L b k) by lia.
    destruct (loadu L A (i * n + k)); reflexivity.
  - now rewrite (@loadu_short L A (i * n + k)) by lia.
Qed.

Lemma unroll8_step_missing i k p s :
  missing A b n i p -> k <= p < k + 8 -> Proj1.unroll8_step A b n i k s = None.
Proof.
  intros H Hk. unfold Proj1.unroll8_step.
  assert (C : p = k \/ p = k + 1 \/ p = k + 2 \/ p = k + 3 \/ p = k + 4 \/
              p = k + 5 \/ p = k + 6 \/ p = k + 7) by lia.
  repeat match goal with
  | C : _ \/ _ |- _ => destruct C as [C|C]
  end; subst p;
    try rewrite (prod_missing H); try rewrite (prod_off_missing _ _ H);
    repeat match goal with
    | |- None = None => reflexivity
    | |- bind None _ = None => reflexivity
    | |- bind (prod ?a ?b ?c ?d ?e) _ = None =>
        destruct (prod a b c d e); cbn [bind]; [|reflexivity]
    | |- bind (prod_off ?a ?b ?c ?d ?e ?f) _ = None =>
        destruct (prod_off a b c d e f); cbn [bind]; [|reflexivity]
    end.
Qed.

Lemma unroll4_step_missing i k p s :
  missing A b n i p -> k <= p < k + 4 -> Hw1.unroll4_step A b n i k s = None.
Proof.
  intros H Hk. unfold Hw1.unroll4_step, sum_step.
  assert (C : p = k \/ p = k + 1 \/ p = k + 2 \/ p = k + 3) by lia.
  repeat match goal with
  | C : _ \/ _ |- _ => destruct C as [C|C]
  end; subst p;
    try rewrite (prod_missing H); try rewrite (prod_off_missing _ _ H);
    repeat match goal with
    | |- None = None => reflexivity
    | |- bind None _ = None => reflexivity
    | |- bind (bind None _) _ = None => reflexivity
    | |- bind (bind (prod ?a ?b ?c ?d ?e) _) _ = None =>
        destruct (prod a b c d e); cbn [bind]; [|reflexivity]
    | |- bind (prod_off ?a ?b ?c ?d ?e ?f) _ = None =>
        destruct (prod_off a b c d e f); cbn [bind]; [|reflexivity]
    end.
Qed.

(** A strided row with a missing position: the main loop meets it in one of
    its blocks, or the remainder loop meets it. *)
Lemma strided_row_missing {S : Type} (W : positive) (step : Z -> S -> option S)
    (val : S -> T) s0 i p (c : list T) :
  missing A b n i p -> p < n ->
  (forall k s, k <= p < k + Zpos W -> step k s = None) ->
  (bound <- Int.sub n (Zpos W) ;;
   '(k, s) <- for_stride W bound step 0 s0 ;;
   sum <- for_lt k n (sum_step A b n i) (val s) ;;
   vec_set c i sum) = None.
Proof.
  intros Hmiss Hp Hstep. unfold Int.sub.
  destruct (Int.chk (n - Zpos W)) as [bound|] eqn:Eb; [|reflexivity].
  apply chk_Some in Eb. destruct Eb as [-> _]. cbn [bind].
  destruct (for_stride W (n - Zpos W) step 0 s0) as [[k s]|] eqn:E;
    [|reflexivity].
  cbn [bind].
  pose proof (for_stride_exit _ _ _ _ _ E) as (X1 & X2 & X3 & X4).
  rewrite Z.sub_0_r in X3.
  assert (P0 : 0 <= p) by (destruct Hmiss as (_ & P0 & _); exact P0).
  destruct (Z_le_gt_dec k p) as [Le|Gt].
  - rewrite for_lt_None with (k := p); [reflexivity|lia|].
    intros s'. now apply sum_step_missing.
  - exfalso.
    assert (Hq : 0 <= Zpos W * (p / Zpos W) <= p /\ p < Zpos W * (p / Zpos W) + Zpos W).
    { pose proof (Z.div_mod p (Zpos W)). pose proof (Z.mod_pos_bound p (Zpos W)).
      pose proof (Z.div_pos p (Zpos W)). nia. }
    assert (Hblock : Zpos W * (p / Zpos W) + Zpos W <= k).
    { apply Z.mod_divide in X3; [|lia]. destruct X3 as [q ->].
      assert (p / Zpos W < q) by nia. nia. }
    rewrite (@for_stride_None S W (n - Zpos W) step 0 s0 (Zpos W * (p / Zpos W)))
      in E; [discriminate|lia| |].
    + rewrite Z.sub_0_r, Z.mul_comm. apply Z.mod_mul. lia.
    + intros s'. apply Hstep. lia.
Qed.

(** Every kernel visits every position of every row. *)
Lemma kernel_missing v i p (c : list T) :
  missing A b n i p -> i < n -> p < n -> kernel v n A b c = None.
Proof.
  intros Hmiss Hi Hp.
  assert (Ri : 0 <= i < n) by (destruct Hmiss as (H & _); lia).
  assert (Rp : 0 <= p < n) by (destruct Hmiss as (_ & H & _); lia).
  destruct v; cbn [kernel].
  - apply for_lt_None with (k := i); [lia|]. intros s.
    apply bind_None_r. intros s'.
    apply for_lt_None with (k := p); [lia|]. intros s''.
    now apply accum_missing.
  - apply bind_None_r. intros s.
    apply for_lt_None with (k := p); [lia|]. intros s'.
    apply for_lt_None with (k := i); [lia|]. intros s''.
    now apply accum_missing.
  - apply for_lt_None with (k := i); [lia|]. intros s.
    apply (@strided_row_missing T 8 (Proj1.unroll8_step A b n i) (fun s => s)
             zero i p s Hmiss Hp).
    intros k s' Hk. now apply unroll8_step_missing with (p := p).
  - apply for_lt_None with (k := i); [lia|]. intros s.
    apply (@strided_row_missing (list T) 4 (fmadd_step 4 A b n i) hsum
             (setzero 4) i p s Hmiss Hp).
    intros k s' Hk. apply fmadd_step_missing with (p := p); [exact Hmiss|].
    cbn. lia.
  - apply for_lt_None with (k := p); [lia|]. intros s'.
    apply for_lt_None with (k := i); [lia|]. intros s''.
    now apply accum_missing.
  - apply for_lt_None with (k := i); [lia|]. intros s.
    apply (@strided_row_missing T 4 (Hw1.unroll4_step A b n i) (fun s => s)
             zero i p s Hmiss Hp).
    intros k s' Hk. now apply unroll4_step_missing with (p := p).
  - apply for_lt_None with (k := i); [lia|]. intros s.
    apply (@strided_row_missing (list T) 8 (fmadd_step 8 A b n i) hsum
             (setzero 8) i p s Hmiss Hp).
    intros k s' Hk. apply fmadd_step_missing with (p := p); [exact Hmiss|].
    cbn. lia.
  - apply bind_None_r. intros s.
    apply for_lt_None with (k := p); [lia|]. intros s'.
    apply for_lt_None with (k := i); [lia|]. intros s''.
    now apply accum_missing.
Qed.

Lemma accum_short d i k (t : list T) :
  Z.of_nat (length t) <= i -> accum A b d i k t = None.
Proof.
  intros H. unfold accum. destruct (prod A b d i k); cbn [bind]; [|reflexivity].
  now rewrite vec_get_None.
Qed.

Lemma strided_row_short {S : Type} (W : positive) (step : Z -> S -> option S)
    (val : S -> T) s0 i (t : list T) :
  Z.of_nat (length t) <= i ->
  (bound <- Int.sub n (Zpos W) ;;
   '(k, s) <- for_stride W bound step 0 s0 ;;
   sum <- for_lt k n (sum_step A b n i) (val s) ;;
   vec_set t i sum) = None.
Proof.
  intros H. destruct (Int.sub n (Zpos W)) as [bound|]; cbn [bind]; [|reflexivity].
  destruct (for_stride W bound step 0 s0) as [[k s]|]; cbn [bind]; [|reflexivity].
  destruct (for_lt k n (sum_step A b n i) (val s)); cbn [bind]; [|reflexivity].
  now apply vec_set_None.
Qed.

Lemma baseline_row_keeps (c t t' : list T) i :
  i < n -> same_outside n c t ->
  (t1 <- vec_set t i zero ;; for_lt 0 n (fun k c => accum A b n i k c) t1) = Some t' ->
  same_outside n c t'.
Proof.
  intros Hi Ht E. apply bind_Some in E. destruct E as [t1 [E1 E2]].
  assert (Ht1 : same_outside n c t1) by (eapply vec_set_keeps; eauto).
  apply (for_lt_keeps (same_outside n c)) in E2; auto.
  intros k u u' Hk Hu Eu. eapply accum_keeps; eauto.
Qed.

(** No kernel gets past row [length c] of a short output vector. *)
Lemma kernel_short_output v (c : list T) :
  Z.of_nat (length c) < n -> kernel v n A b c = None.
Proof.
  intros Hc.
  assert (Hk : 0 <= Z.of_nat (length c) < n) by lia.
  assert (Hshort : forall t, same_outside n c t ->
            Z.of_nat (length t) <= Z.of_nat (length c))
    by (intros t [Hl _]; lia).
  destruct v; cbn [kernel].
  - apply for_lt_None_inv with (P := same_outside n c) (k := Z.of_nat (length c));
      auto using same_outside_refl.
    + intros m t t' Hm Ht E.
      eapply baseline_row_keeps with (i := m); [lia|exact Ht|exact E].
    + intros t Ht. rewrite vec_set_None by auto. reflexivity.
  - unfold Proj1.Mv_mult_interchanged.
    rewrite for_lt_None_inv with (P := same_outside n c) (k := Z.of_nat (length c));
      auto using same_outside_refl.
    + intros m t t' Hm Ht E.
      eapply vec_set_keeps with (i := m); [lia|exact Ht|exact E].
    + intros t Ht. apply vec_set_None. auto.
  - apply for_lt_None_inv with (P := same_outside n c) (k := Z.of_nat (length c));
      auto using same_outside_refl.
    + intros m t t' Hm Ht E.
      eapply strided_row_keeps with (val := fun s => s) (i := m);
        [lia|exact Ht|exact E].
    + intros t Ht. apply strided_row_short with (val := fun s => s). auto.
  - apply for_lt_None_inv with (P := same_outside n c) (k := Z.of_nat (length c));
      auto using same_outside_refl.
    + intros m t t' Hm Ht E.
      eapply strided_row_keeps with (val := hsum) (i := m);
        [lia|exact Ht|exact E].
    + intros t Ht. apply strided_row_short with (val := hsum). auto.
  - unfold Hw1.Mv_mult_interchanged.
    apply for_lt_first_None; [lia|].
    apply for_lt_None_inv with (P := same_outside n (Hw1.fill_zero c))
                               (k := Z.of_nat (length c));
      auto using same_outside_refl.
    + intros m t t' Hm Ht E.
      eapply accum_keeps with (i := m); [lia|exact Ht|exact E].
    + intros t [Hl _]. apply accum_short.
      unfold Hw1.fill_zero in Hl. rewrite length_map in Hl. lia.
  - apply for_lt_None_inv with (P := same_outside n c) (k := Z.of_nat (length c));
      auto using same_outside_refl.
    + intros m t t' Hm Ht E.
      eapply strided_row_keeps with (val := fun s => s) (i := m);
        [lia|exact Ht|exact E].
    + intros t Ht. apply strided_row_short with (val := fun s => s). auto.
  - apply for_lt_None_inv with (P := same_outside n c) (k := Z.of_nat (length c));
      auto using same_outside_refl.
    + intros m t t' Hm Ht E.
      eapply strided_row_keeps with (val := hsum) (i := m);
        [lia|exact Ht|exact E].
    + intros t Ht. apply strided_row_short with (val := hsum). auto.
  - unfold MvC.MatVecMult, MvC.memset_zero.
    replace (n <=? Z.of_nat (length c)) with false
      by (symmetry; apply Z.leb_gt; lia).
    now rewrite andb_false_r.
Qed.
End ShortBuffers.

(** X4: no kernel checks its buffers: for a positive dimension [n], a matrix
    with fewer than [n * n] elements, an input vector with fewer than [n] or
    an output vector with fewer than [n] makes the call undefined in every
    variant: it reads or writes out of bounds, unless an index has
    overflowed [int] before (dimensions past 46340). *)
Theorem kernel_needs_full_buffers (T : Type) (SC : Scalar T)
    (v : variant) (n : Z) (A b c : list T) :
  0 < n ->
  Z.of_nat (length A) < n * n \/ Z.of_nat (length b) < n \/
  Z.of_nat (length c) < n ->
  kernel v n A b c = None.
Proof.
  intros Hn [HA|[Hb|Hc]].
  - apply kernel_missing with (i := Z.of_nat (length A) / n)
                              (p := Z.of_nat (length A) mod n).
    + pose proof (Z.div_mod (Z.of_nat (length A)) n ltac:(lia)).
      pose proof (Z.mod_pos_bound (Z.of_nat (length A)) n Hn).
      pose proof (Z.div_pos (Z.of_nat (length A)) n ltac:(lia) Hn).
      unfold missing. lia.
    + apply Z.div_lt_upper_bound; lia.
    + apply Z.mod_pos_bound. exact Hn.
  - apply kernel_missing with (i := 0) (p := Z.of_nat (length b)); try lia.
    unfold missing. lia.
  - now apply kernel_short_output.
Qed.

(** An instance. *)
Lemma kernel_needs_full_buffers_witness :
  kernel Vectorized4 5 (rationals (map Z.of_nat (seq 0 25)))
         (rationals [1; 2; 3; 4]) (rationals [0; 0; 0; 0; 0]) = None.
Proof.
  apply (@kernel_needs_full_buffers Qc Qc_Scalar Vectorized4 5);
    [lia | right; left; simpl; lia].
Defined.

(** X5: for a dimension [n <= 0] the loops of every kernel are empty: the
    output vector is returned as it was, except that [hw1.cpp]'s interchanged
    kernel has cleared it, and that [MatVecMult] with a negative [ARows] calls
    [memset] with the negative count converted to [size_t] (undefined). *)
Theorem kernel_nonpositive_dimension (T : Type) (SC : Scalar T)
    (v : variant) (n : Z) (A b c : list T) :
  n <= 0 ->
  kernel v n A b c
  = match v with
    | Interchanged_hw1 => Some (Hw1.fill_zero c)
    | MatVecMult_c => if n <? 0 then None else Some c
    | _ => Some c
    end.
Proof.
  intros Hn. destruct v; cbn [kernel];
    try (apply for_lt_empty; exact Hn).
  - unfold Proj1.Mv_mult_interchanged. rewrite for_lt_empty by exact Hn.
    cbn [bind]. apply for_lt_empty. exact Hn.
  - unfold MvC.MatVecMult, MvC.memset_zero.
    destruct (n <? 0) eqn:E.
    + apply Z.ltb_lt in E.
      replace (0 <=? n) with false by (symmetry; apply Z.leb_gt; lia).
      reflexivity.
    + apply Z.ltb_ge in E. assert (n = 0) by lia. subst n.
      cbn [Z.leb Z.compare andb]. 
      replace (0 <=? Z.of_nat (length c)) with true
        by (symmetry; apply Z.leb_le; lia).
      cbn [bind Z.to_nat repeat skipn app]. apply for_lt_empty. lia.
Qed.

(** An instance. *)
Lemma kernel_nonpositive_dimension_witness :
  kernel MatVecMult_c (-1) (rationals [1]) (rationals [1]) (rationals [1; 2]) = None.
Proof.
  apply (@kernel_nonpositive_dimension Qc Qc_Scalar MatVecMult_c (-1)). lia.
Defined.

(** X6: on buffers of the sizes the drivers allocate, a kernel has a result
    exactly for the dimensions up to 46340; past it every variant is
    undefined whatever the buffers are (the index [i * n + k] overflows
    [int] in the last row). *)
Theorem kernel_defined_up_to_max_dim (T : Type) (SC : Scalar T)
    (EA : ExactArith T) (v : variant) (n : Z) (A b c : list T) :
  0 <= n ->
  Z.of_nat (length A) = n * n ->
  Z.of_nat (length b) = n ->
  Z.of_nat (length c) = n ->
  (kernel v n A b c <> None <-> n <= max_dim) /\
  (max_dim < n -> forall A' b' c' : list T, kernel v n A' b' c' = None).
Proof.
  intros Hn HA Hb Hc. split; [split|].
  - intros Hne. destruct (Z_le_gt_dec n max_dim) as [Le|Gt]; [exact Le|].
    exfalso. apply Hne. apply kernel_overflow. lia.
  - intros Le. rewrite kernel_in_range by (auto; lia). discriminate.
  - intros Gt A' b' c'. now apply kernel_overflow.
Qed.

(** An instance. *)
Lemma kernel_defined_up_to_max_dim_witness :
  kernel Vectorized8 2 (rationals [1; 2; 3; 4]) (rationals [5; 6])
         (rationals [7; 8]) <> None <-> 2 <= max_dim.
Proof.
  refine (proj1 (@kernel_defined_up_to_max_dim Qc Qc_Scalar Qc_ExactArith
                   Vectorized8 2 _ _ _ _ _ _ _));
    [lia | reflexivity | reflexivity | reflexivity].
Defined.

(** ** [MatVecMult] on a rectangular matrix *)

Lemma rect_index_fits r m i k :
  0 <= r -> r * m <= Int.max_int -> 0 <= i < r -> 0 <= k < m ->
  0 <= i * m + k < r * m /\ i * m + k <= Int.max_int /\ 0 <= i * m <= Int.max_int.
Proof. intros Hr Hfit Hi Hk. unfold Int.max_int in *. nia. Qed.

Section Rectangular.
Context {T : Type} {SC : Scalar T}.
Variables (r m : Z) (A b : list T).
Hypothesis Hr : 0 <= r.
Hypothesis Hm : 0 <= m.
Hypothesis Hfit : r * m <= Int.max_int.
Hypothesis HA : Z.of_nat (length A) = r * m.
Hypothesis Hb : Z.of_nat (length b) = m.

Lemma rect_prod_ok i k :
  0 <= i < r -> 0 <= k < m -> prod A b m i k = Some (term A b m i k).
Proof.
  intros Hi Hk. destruct (rect_index_fits Hr Hfit Hi Hk) as (H1 & H2 & H3).
  unfold prod, term, Int.mul, Int.add.
  rewrite chk_fits by (unfold Int.min_int; lia). cbn [bind].
  rewrite chk_fits by (unfold Int.min_int; lia). cbn [bind].
  rewrite vec_get_elt by lia. cbn [bind].
  rewrite vec_get_elt by lia. reflexivity.
Qed.

(** One pass of the inner loop adds column [k] to every row. *)
Lemma rect_column_pass (h : Z -> T) k c :
  0 <= k < m -> filled_to r h r c ->
  exists c', for_lt 0 r (fun i c => accum A b m i k c) c = Some c' /\
             filled_to r (fun i => add (h i) (term A b m i k)) r c'.
Proof.
  intros Hk Hc. unfold for_lt. rewrite Z.sub_0_r.
  destruct (@for_count_inv _
    (fun j c => filled_to r
       (fun i => if i <? Z.of_nat j then add (h i) (term A b m i k) else h i) r c)
    (Z.to_nat r) 0 (fun i c => accum A b m i k c) c) as [c' [E F]].
  - destruct Hc as [Hl Hc]. split; [exact Hl|]. intros i Hi.
    destruct (i <? Z.of_nat 0) eqn:E; [apply Z.ltb_lt in E; lia|]. auto.
  - intros j s Hj [Fl Fc]. rewrite Z.add_0_l. unfold accum.
    rewrite rect_prod_ok by lia. cbn [bind].
    rewrite (Fc (Z.of_nat j)) by lia. rewrite Z.ltb_irrefl. cbn [bind].
    rewrite vec_set_in_range by lia. eexists. split; [reflexivity|].
    split; [now rewrite length_list_upd|]. intros i Hi.
    destruct (Z.eq_dec i (Z.of_nat j)) as [->|N].
    + rewrite vec_get_list_upd_eq by lia.
      destruct (Z.of_nat j <? Z.of_nat (S j)) eqn:E; [reflexivity|].
      apply Z.ltb_ge in E. lia.
    + rewrite vec_get_list_upd_neq by lia. rewrite (Fc i Hi).
      destruct (i <? Z.of_nat j) eqn:E1; destruct (i <? Z.of_nat (S j)) eqn:E2;
        try reflexivity;
        [apply Z.ltb_lt in E1; apply Z.ltb_ge in E2
        |apply Z.ltb_ge in E1; apply Z.ltb_lt in E2]; lia.
  - exists c'. split; [exact E|]. destruct F as [Fl Fc].
    split; [exact Fl|]. intros i Hi. rewrite (Fc i Hi).
    destruct (i <? Z.of_nat (Z.to_nat r)) eqn:E1; [reflexivity|].
    apply Z.ltb_ge in E1. lia.
Qed.

(** The [k]-[i] loop nest of [MatVecMult], started on a zeroed vector. *)
Lemma rect_loops c :
  filled_to r (fun _ => zero) r c ->
  for_lt 0 m (fun k c => for_lt 0 r (fun i c => accum A b m i k c) c) c =
  Some (tabulate r (dot_row A b m)).
Proof.
  intros Hc. unfold for_lt at 1. rewrite Z.sub_0_r.
  destruct (@for_count_inv _
    (fun j c => filled_to r (fun i => sigma (term A b m i) 0 j) r c)
    (Z.to_nat m) 0
    (fun k c => for_lt 0 r (fun i c => accum A b m i k c) c) c) as [c' [E F]].
  - exact Hc.
  - intros j s Hj Fs. rewrite Z.add_0_l.
    destruct (@rect_column_pass _ (Z.of_nat j) s ltac:(lia) Fs) as [s' [E' F']].
    exists s'. split; [exact E'|]. exact F'.
  - rewrite E. f_equal. apply filled_tabulate; [lia|]. exact F.
Qed.

Lemma rect_memset c :
  Z.of_nat (length c) = r ->
  exists c', MvC.memset_zero c r = Some c' /\ filled_to r (fun _ => zero) r c'.
Proof.
  intros Hc. unfold MvC.memset_zero.
  destruct (0 <=? r) eqn:E1; [|apply Z.leb_gt in E1; lia].
  destruct (r <=? Z.of_nat (length c)) eqn:E2; [|apply Z.leb_gt in E2; lia].
  cbn [andb]. eexists. split; [reflexivity|].
  rewrite skipn_all2 by lia. rewrite app_nil_r.
  split; [rewrite repeat_length; lia|].
  intros i Hi. unfold vec_get.
  destruct (i <? 0) eqn:E; [apply Z.ltb_lt in E; lia|].
  rewrite nth_error_repeat by lia. reflexivity.
Qed.

Lemma rect_MatVecMult c :
  Z.of_nat (length c) = r ->
  MvC.MatVecMult A b c r m = Some (tabulate r (dot_row A b m)).
Proof.
  intros Hc. unfold MvC.MatVecMult.
  destruct (rect_memset c Hc) as [c' [E F]]. rewrite E. cbn [bind].
  now apply rect_loops.
Qed.
End Rectangular.

(** X7: [MatVecMult] of [Mv.c] multiplies any [ARows x ACols] matrix, not
    only the square ones [main] gives it: while [ARows * ACols] fits an [int],
    [C[i]] becomes the sum over [k] in [0, ACols) of [A[i * ACols + k] * B[k]],
    added in the order of [k] from zero, in any element arithmetic. *)
Theorem MatVecMult_rectangular (T : Type) (SC : Scalar T)
    (ARows ACols : Z) (A B C : list T) :
  0 <= ARows -> 0 <= ACols ->
  ARows * ACols <= Int.max_int ->
  Z.of_nat (length A) = ARows * ACols ->
  Z.of_nat (length B) = ACols ->
  Z.of_nat (length C) = ARows ->
  MvC.MatVecMult A B C ARows ACols = Some (tabulate ARows (dot_row A B ACols)) /\
  MvCMain.MatVecMult (MvCMain.Block A) (MvCMain.Block B) (MvCMain.Block C)
                     ARows ACols
  = Some (MvCMain.Block (tabulate ARows (dot_row A B ACols))).
Proof.
  intros Hr Hm Hfit HA HB HC.
  assert (E : MvC.MatVecMult A B C ARows ACols
              = Some (tabulate ARows (dot_row A B ACols)))
    by (apply rect_MatVecMult; assumption).
  split; [exact E|]. rewrite MatVecMult_blocks, E. reflexivity.
Qed.

(** An instance. *)
Lemma MatVecMult_rectangular_witness :
  MvC.MatVecMult (rationals [1; 2; 3; 4; 5; 6]) (rationals [1; 0; 2])
                 (rationals [9; 9]) 2 3
  = Some (tabulate 2 (dot_row (rationals [1; 2; 3; 4; 5; 6]) (rationals [1; 0; 2]) 3)).
Proof.
  refine (proj1 (@MatVecMult_rectangular Qc Qc_Scalar 2 3 _ _ _ _ _ _ _ _ _));
    [lia | lia | unfold Int.max_int; lia | reflexivity | reflexivity | reflexivity].
Defined.

(** * Further properties of the drivers *)

(** ** [InitMatrix] on any block and on the null pointer *)

Lemma for_count_skip {S : Type} cnt i (body : Z -> S -> option S) s :
  (forall k s, body k s = Some s) -> for_count cnt i body s = Some s.
Proof.
  intros Hb. revert i. induction cnt as [|c IH]; intros i; [reflexivity|].
  cbn [for_count]. rewrite Hb. cbn [bind]. apply IH.
Qed.

Lemma InitMatrix_no_columns {T : Type} {SC : Scalar T}
    (M : @MvCMain.Matrix T) Rows Cols :
  Cols <= 0 -> MvCMain.InitMatrix M Rows Cols = Some M.
Proof.
  intros H. unfold MvCMain.InitMatrix, for_lt at 1.
  apply for_count_skip. intros k s. now apply for_lt_empty.
Qed.

(** X8: [InitMatrix] sets every cell [A[i * Cols + j]] of a [Rows x Cols]
    block to [1 / (i + j + 2)] and keeps the block's size, for every shape
    whose cell count fits an [int] (an empty shape leaves the block as it
    is). *)
Theorem InitMatrix_fills_block (T : Type) (SC : Scalar T)
    (Rows Cols : Z) (a0 : list T) :
  0 <= Rows -> 0 <= Cols ->
  Rows * Cols <= Int.max_int -> Rows + Cols <= Int.max_int ->
  Z.of_nat (length a0) = Rows * Cols ->
  exists a,
    MvCMain.InitMatrix (MvCMain.Block a0) Rows Cols = Some (MvCMain.Block a) /\
    Z.of_nat (length a) = Rows * Cols /\
    forall i j, 0 <= i < Rows -> 0 <= j < Cols ->
      vec_get a (i * Cols + j) = Some (div one (of_int (i + j + 2))).
Proof.
  intros Hr Hc Hfit Hsum Hl. destruct (Z.eq_dec Cols 0) as [->|Hpos].
  - exists a0. split; [apply InitMatrix_no_columns; lia|].
    split; [exact Hl|]. intros i j _ Hj. lia.
  - eexists. split; [apply InitMatrix_ok; auto; lia|].
    split; [apply length_tabulate; nia|]. intros i j Hi Hj.
    rewrite vec_get_tabulate by nia.
    destruct (flat_index i Hj) as [-> ->]. reflexivity.
Qed.

(** An instance. *)
Lemma InitMatrix_fills_block_witness :
  exists a,
    MvCMain.InitMatrix (MvCMain.Block (rationals [7; 7; 7; 7; 7; 7])) 2 3
      = Some (MvCMain.Block a) /\
    Z.of_nat (length a) = 2 * 3 /\
    forall i j, 0 <= i < 2 -> 0 <= j < 3 ->
      vec_get a (i * 3 + j) = Some (div one (of_int (i + j + 2))).
Proof.
  apply (@InitMatrix_fills_block Qc Qc_Scalar 2 3);
    [lia | lia | unfold Int.max_int; lia | unfold Int.max_int; lia | reflexivity].
Defined.

(** X9: [InitMatrix] on the null pointer (what [CreateMatrix] returns when
    the allocation fails) stores through it as soon as there is a cell to
    set: undefined for [Rows > 0] and [Cols > 0], no access otherwise. *)
Theorem InitMatrix_null_pointer (T : Type) (SC : Scalar T) (Rows Cols : Z) :
  MvCMain.InitMatrix (@MvCMain.Null T) Rows Cols
  = if (0 <? Rows) && (0 <? Cols) then None else Some MvCMain.Null.
Proof.
  destruct (0 <? Rows) eqn:Er; cbn [andb].
  - destruct (0 <? Cols) eqn:Ec.
    + apply Z.ltb_lt in Er. apply Z.ltb_lt in Ec. now apply InitMatrix_null.
    + apply Z.ltb_ge in Ec. now apply InitMatrix_no_columns.
  - apply Z.ltb_ge in Er. now apply InitMatrix_empty.
Qed.

(** ** The command line *)

(** X10: a wrong number of command-line arguments: the [src/proj1] drivers
    and [Mv.c] (any count but one argument) print their usage line, naming the
    program, to the error stream and end with status 1; [hw1.cpp] (any count
    but one or two arguments) prints its seven usage lines and ends with
    status 1.  Nothing is written to standard output. *)
Theorem wrong_argument_count_usage (T : Type) (SC : Scalar T)
    (kernel : Z -> list T -> list T -> list T -> option (list T))
    (clock : nat -> T) (file : string) (line : Z) (h : @MvCMain.heap T)
    (resolution : T) (prog_name : string) (rest : list string) :
  length rest <> 1%nat ->
  run (Proj1Main.main kernel clock (prog_name :: rest))
    = ([Err ("Usage: " ++ prog_name ++ " <matrix_size_n>")%string], Exit 1) /\
  run (MvCMain.main file line h clock resolution (prog_name :: rest))
    = ([Err ("USAGE: " ++ prog_name ++ " Matrix-Dimension")%string], Exit 1) /\
  (length rest <> 2%nat ->
   run (Hw1Main.main clock (prog_name :: rest))
     = (map Err (Hw1Main.usage_lines prog_name), Exit 1)).
Proof.
  intros H1.
  assert (E2 : Nat.eqb (length (prog_name :: rest)) 2 = false).
  { apply Nat.eqb_neq. cbn [length]. lia. }
  split; [|split].
  - unfold Proj1Main.main. rewrite E2. reflexivity.
  - unfold MvCMain.main. rewrite E2. reflexivity.
  - intros H2.
    assert (E3 : Nat.eqb (length (prog_name :: rest)) 3 = false).
    { apply Nat.eqb_neq. cbn [length]. lia. }
    unfold Hw1Main.main. rewrite E2, E3. unfold Hw1Main.print_usage.
    cbn [pbind halt run arg nth]. now rewrite !app_nil_r.
Qed.

(** An instance. *)
Lemma wrong_argument_count_usage_witness :
  run (Hw1Main.main ticks ["hw1"; "unroll"; "64"; "extra"]%string)
  = (map Err (Hw1Main.usage_lines "hw1"), Exit 1).
Proof.
  refine (proj2 (proj2 (@wrong_argument_count_usage Qc Qc_Scalar
            Proj1.Mv_mult ticks "Mv.c" 16 (heap_serving (fun _ _ => zero)) one
            "hw1"%string ["unroll"; "64"; "extra"]%string _)) _);
    simpl; lia.
Defined.

(** X11: the [src/proj1] drivers reject every dimension argument that
    [atoi] reads as zero or negative (text without leading digits included):
    "Matrix size must be a positive integer." on the error stream, status 1,
    nothing allocated, computed or printed on standard output, whichever
    kernel the driver is built with. *)
Theorem proj1_rejects_nonpositive_dimension (T : Type) (SC : Scalar T)
    (kernel : Z -> list T -> list T -> list T -> option (list T))
    (clock : nat -> T) (prog_name s : string) (n : Z) :
  atoi s = Some n -> n <= 0 ->
  run (Proj1Main.main kernel clock [prog_name; s])
  = ([Err "Matrix size must be a positive integer."], Exit 1).
Proof.
  intros Ha Hn. unfold Proj1Main.main. cbn [length Nat.eqb negb arg nth].
  rewrite Ha. cbn [lift pbind ret].
  apply Z.leb_le in Hn. rewrite Hn. reflexivity.
Qed.

(** An instance. *)
Lemma proj1_rejects_nonpositive_dimension_witness :
  run (Proj1Main.main (kernel Vectorized4) ticks ["avx2"; " -12abc"]%string)
  = ([Err "Matrix size must be a positive integer."], Exit 1).
Proof.
  apply (@proj1_rejects_nonpositive_dimension Qc Qc_Scalar (kernel Vectorized4)
           ticks "avx2"%string " -12abc"%string (-12));
    [reflexivity | lia].
Defined.

Lemma square_overflow n : max_dim < Z.abs n -> Int.mul n n = None.
Proof.
  intros H. unfold Int.mul. apply chk_above.
  unfold max_dim, Int.max_int in *. nia.
Qed.

Lemma square_fits n : Z.abs n <= max_dim -> Int.mul n n = Some (n * n).
Proof.
  intros H. unfold Int.mul. apply chk_fits.
  unfold max_dim, Int.min_int, Int.max_int in *. nia.
Qed.

Lemma times_one_fits s n : atoi s = Some n -> Int.mul n 1 = Some n.
Proof.
  intros Ha. unfold Int.mul. rewrite Z.mul_1_r. apply chk_fits.
  exact (atoi_fits _ Ha).
Qed.

(** X12: [hw1.cpp] with any selector other than [avx2], [unroll] and
    [interchange] (the comparison is exact, so [AVX2] is one), and a dimension
    from 0 to 46340: after allocating and generating the inputs it prints
    "Error: Unknown optimization type '...'" and the usage text to the error
    stream and returns 1; nothing is written to standard output. *)
Theorem hw1_unknown_selector_rejected (T : Type) (SC : Scalar T)
    (clock : nat -> T) (prog_name sel s : string) (n : Z) :
  atoi s = Some n -> 0 <= n <= max_dim ->
  sel <> "avx2"%string -> sel <> "unroll"%string -> sel <> "interchange"%string ->
  run (Hw1Main.main clock [prog_name; sel; s])
  = (Err ("Error: Unknown optimization type '" ++ sel ++ "'")%string
       :: map Err (Hw1Main.usage_lines prog_name),
     Exit 1).
Proof.
  intros Ha Hn N1 N2 N3. unfold Hw1Main.main.
  cbn [length Nat.eqb arg nth]. rewrite Ha. cbn [lift pbind ret app].
  rewrite dim_squared_fits by lia. cbn [lift pbind ret].
  rewrite !vector_new_ok by nia. cbn [pbind ret].
  rewrite hw1_generate_ok by (rewrite ?length_zeros; nia || lia).
  cbn [lift pbind ret app].
  apply String.eqb_neq in N1, N2, N3. rewrite N1, N2, N3.
  unfold Hw1Main.print_usage. cbn [lift pbind ret emit halt app run].
  now rewrite app_nil_r.
Qed.

(** An instance. *)
Lemma hw1_unknown_selector_rejected_witness :
  run (Hw1Main.main ticks ["hw1"; "AVX2"; "0"]%string)
  = (Err "Error: Unknown optimization type 'AVX2'"
       :: map Err (Hw1Main.usage_lines "hw1"),
     Exit 1).
Proof.
  exact (@hw1_unknown_selector_rejected Qc Qc_Scalar ticks
           "hw1"%string "AVX2"%string "0"%string 0 eq_refl
           ltac:(unfold max_dim; lia) ltac:(discriminate) ltac:(discriminate)
           ltac:(discriminate)).
Defined.

(** X13: [hw1.cpp] with a negative dimension down to -46340, with or
    without a selector (recognised or not): [vector<float> B(n)] throws
    [std::length_error], which [main] does not catch; the program is
    terminated before it has written anything. *)
Theorem hw1_negative_dimension_terminates (T : Type) (SC : Scalar T)
    (clock : nat -> T) (prog_name s : string) (n : Z) :
  atoi s = Some n -> - max_dim <= n < 0 ->
  run (Hw1Main.main clock [prog_name; s]) = ([], Terminated) /\
  forall sel, run (Hw1Main.main clock [prog_name; sel; s]) = ([], Terminated).
Proof.
  intros Ha Hn.
  assert (Hsq : Int.mul n n = Some (n * n)) by (apply square_fits; lia).
  assert (HA : @vector_new T SC (n * n) = ret (repeat zero (Z.to_nat (n * n))))
    by (apply vector_new_ok; nia).
  assert (HB : @vector_new T SC n = halt Terminated).
  { unfold vector_new. replace (n <? 0) with true; [reflexivity|].
    symmetry. apply Z.ltb_lt. lia. }
  split; [|intros sel]; unfold Hw1Main.main; cbn [length Nat.eqb arg nth];
    rewrite Ha; cbn [lift pbind ret app]; rewrite Hsq; cbn [lift pbind ret app];
    rewrite HA; cbn [pbind ret app]; rewrite HB; reflexivity.
Qed.

(** An instance. *)
Lemma hw1_negative_dimension_terminates_witness :
  run (Hw1Main.main ticks ["hw1"; "-5"]%string) = ([], Terminated).
Proof.
  refine (proj1 (@hw1_negative_dimension_terminates Qc Qc_Scalar ticks
                   "hw1"%string "-5"%string (-5) _ _));
    [reflexivity | unfold max_dim; lia].
Defined.

(** X14: a dimension of absolute value above 46340: every driver computes
    [n * n] in [int] for its first allocation, which overflows (undefined
    behaviour) before anything is written; the [src/proj1] drivers get there
    for the positive dimensions only (they reject the others first). *)
Theorem dimension_overflow_before_output (T : Type) (SC : Scalar T)
    (kernel : Z -> list T -> list T -> list T -> option (list T))
    (clock : nat -> T) (file : string) (line : Z) (h : @MvCMain.heap T)
    (resolution : T) (prog_name s : string) (n : Z) :
  atoi s = Some n -> max_dim < Z.abs n ->
  (0 < n -> run (Proj1Main.main kernel clock [prog_name; s]) = ([], Undefined)) /\
  run (Hw1Main.main clock [prog_name; s]) = ([], Undefined) /\
  (forall sel, run (Hw1Main.main clock [prog_name; sel; s]) = ([], Undefined)) /\
  run (MvCMain.main file line h clock resolution [prog_name; s]) = ([], Undefined).
Proof.
  intros Ha Hn. assert (Hsq : Int.mul n n = None) by (now apply square_overflow).
  split; [|split; [|split]].
  - intros Hpos. unfold Proj1Main.main. cbn [length Nat.eqb negb arg nth].
    rewrite Ha. cbn [lift pbind ret].
    replace (n <=? 0) with false by (symmetry; apply Z.leb_gt; lia).
    rewrite Hsq. reflexivity.
  - unfold Hw1Main.main. cbn [length Nat.eqb arg nth].
    rewrite Ha. cbn [lift pbind ret app]. rewrite Hsq. reflexivity.
  - intros sel. unfold Hw1Main.main. cbn [length Nat.eqb arg nth].
    rewrite Ha. cbn [lift pbind ret app]. rewrite Hsq. reflexivity.
  - unfold MvCMain.main, MvCMain.CreateMatrix. cbn [length Nat.eqb negb arg nth].
    rewrite Ha. cbn [lift pbind ret app]. rewrite Hsq. reflexivity.
Qed.

(** An instance. *)
Lemma dimension_overflow_before_output_witness :
  run (MvCMain.main "Mv.c" 16 (heap_serving (fun _ _ => 0%Qc)) ticks 1%Qc
         ["Mv"; "-46341"]%string) = ([], Undefined).
Proof.
  refine (proj2 (proj2 (proj2 (@dimension_overflow_before_output Qc Qc_Scalar
            Proj1.Mv_mult ticks "Mv.c" 16 (heap_serving (fun _ _ => 0%Qc)) 1%Qc
            "Mv"%string "-46341"%string (-46341) _ _))));
    [reflexivity | unfold max_dim; lia].
Defined.

(** ** Allocation in [Mv.c] *)

(** X15: [Mv.c] and [hw1/Mv.cpp] for a dimension from 1 to 46340 when at
    least one of the three allocations fails: [CreateMatrix] prints one
    diagnostic per failed allocation, [main] goes on with the null pointer and
    runs into undefined behaviour; nothing reaches standard output. *)
Theorem MvC_allocation_failure_goes_on (T : Type) (SC : Scalar T)
    (file : string) (line : Z) (h : @MvCMain.heap T) (clock : nat -> T)
    (resolution : T) (prog_name s : string) (n : Z) :
  atoi s = Some n -> 0 < n <= max_dim ->
  MvCMain.alloc_ok h 0 && MvCMain.alloc_ok h 1 && MvCMain.alloc_ok h 2 = false ->
  run (MvCMain.main file line h clock resolution [prog_name; s])
  = (alloc_errors file line h, Undefined).
Proof.
  intros Ha Hn Hfail.
  apply (@mvc_run_failing T SC file line h clock resolution [prog_name; s] n);
    auto.
Qed.

(** An instance. *)
Lemma MvC_allocation_failure_goes_on_witness :
  run (MvCMain.main "Mv.cpp" 27 (heap_failing 1 (fun _ _ => 0%Qc)) ticks 1%Qc
         ["Mv"; "8"]%string)
  = (alloc_errors "Mv.cpp" 27 (heap_failing 1 (fun _ _ => 0%Qc)), Undefined).
Proof.
  apply (@MvC_allocation_failure_goes_on Qc Qc_Scalar "Mv.cpp" 27
           (heap_failing 1 (fun _ _ => 0%Qc)) ticks 1%Qc
           "Mv"%string "8"%string 8);
    [reflexivity | unfold max_dim; lia | reflexivity].
Defined.

(** X16: [Mv.c] with a negative dimension [N] down to -46340: the requests
    for [B] and [C] ([N * 1] cells, a negative [int] converted to [size_t])
    cannot be served, so [CreateMatrix] prints its diagnostic twice (and once
    more if the [N * N] cells of [A] are refused); the [InitMatrix] loops are
    empty, and [memset] on the null [C] is undefined behaviour. *)
Theorem MvC_negative_dimension (T : Type) (SC : Scalar T)
    (h : @MvCMain.heap T) (clock : nat -> T) (resolution : T)
    (prog_name s : string) (n : Z) :
  atoi s = Some n -> - max_dim <= n < 0 ->
  run (MvCMain.main_c h clock resolution [prog_name; s])
  = ((if MvCMain.alloc_ok h 0 then [] else [ErrAlloc "Mv.c" 16])
       ++ [ErrAlloc "Mv.c" 16; ErrAlloc "Mv.c" 16],
     Undefined).
Proof.
  intros Ha Hn. unfold MvCMain.main_c, MvCMain.main, MvCMain.CreateMatrix.
  cbn [length Nat.eqb negb arg nth]. rewrite Ha. cbn [lift pbind ret app].
  rewrite square_fits by lia. rewrite (times_one_fits _ Ha).
  cbn [lift pbind ret app]. unfold MvCMain.malloc.
  replace (n * n <? 0) with false by (symmetry; apply Z.ltb_ge; nia).
  replace (n <? 0) with true by (symmetry; apply Z.ltb_lt; lia).
  destruct (MvCMain.alloc_ok h 0);
    cbn [lift pbind ret emit app];
    rewrite !InitMatrix_empty by lia; cbn [lift pbind ret emit app bind];
    reflexivity.
Qed.

(** An instance. *)
Lemma MvC_negative_dimension_witness :
  run (MvCMain.main_c (heap_serving (fun _ _ => 0%Qc)) ticks 1%Qc
         ["Mv"; "-3"]%string)
  = ([ErrAlloc "Mv.c" 16; ErrAlloc "Mv.c" 16], Undefined).
Proof.
  apply (@MvC_negative_dimension Qc Qc_Scalar
           (heap_serving (fun _ _ => 0%Qc)) ticks 1%Qc "Mv"%string "-3"%string (-3));
    [reflexivity | unfold max_dim; lia].
Defined.

(** ** [Mv.c] and [hw1.cpp] side by side *)

Section SameProblem.
Context {T : Type} {SC : Scalar T} {EA : ExactArith T}.

Lemma gen_A_c_eq n : @gen_A_c T SC n = gen_A n.
Proof.
  unfold gen_A_c, gen_A. apply tabulate_ext. intros p _.
  now rewrite of_int_add.
Qed.

Lemma gen_b_c_eq n : @gen_b_c T SC n = gen_b2 n.
Proof.
  unfold gen_b_c, gen_b2. apply tabulate_ext. intros i _.
  now rewrite Z.add_0_r, of_int_add.
Qed.
End SameProblem.

(** X17: [Mv.c] and [hw1.cpp] run the same problem: in exact arithmetic
    [InitMatrix] ([1.0 / (i + j + 2)]) and the generator of [hw1.cpp]
    ([1.0f / (i + j + 2.0f)], [1.0f / (i + 2.0f)]) fill [A] and [B] with the
    same values, and for a dimension from 1 to 46340 the two programs print
    the same sample [C[N/2]] and end alike, whichever kernel of [hw1.cpp] is
    selected. *)
Theorem MvC_and_hw1_same_problem (T : Type) (SC : Scalar T) (EA : ExactArith T)
    (file : string) (line : Z) (h : @MvCMain.heap T) (clock1 clock2 : nat -> T)
    (resolution : T) (p1 p2 s : string) (n : Z) :
  atoi s = Some n -> 0 < n <= max_dim ->
  MvCMain.alloc_ok h 0 = true ->
  MvCMain.alloc_ok h 1 = true ->
  MvCMain.alloc_ok h 2 = true ->
  (@gen_A_c T SC n = gen_A n /\ @gen_b_c T SC n = gen_b2 n) /\
  same_checksums (run (MvCMain.main file line h clock1 resolution [p1; s]))
                 (run (Hw1Main.main clock2 [p2; s])) /\
  forall sel, In sel ["avx2"; "unroll"; "interchange"]%string ->
    same_checksums (run (MvCMain.main file line h clock1 resolution [p1; s]))
                   (run (Hw1Main.main clock2 [p2; sel; s])).
Proof.
  intros Ha Hn H0 H1 H2.
  pose proof (@generated_lengths T SC n ltac:(lia)) as (LA & _ & _ & Lb & _).
  assert (Hz : Z.of_nat (length (repeat (@zero T SC) (Z.to_nat n))) = n)
    by (apply length_zeros; lia).
  assert (Hr : 0 <= n <= max_dim) by lia.
  assert (Hm : run (MvCMain.main file line h clock1 resolution [p1; s])
               = micros_report clock1 resolution MvCMain.gflops n
                   (Some (product (gen_A n) (gen_b2 n) n))).
  { rewrite (@mvc_run T SC file line h clock1 resolution [p1; s] n) by auto.
    rewrite gen_A_c_eq, gen_b_c_eq.
    now rewrite (MatVecMult_in_range (gen_A n) (gen_b2 n) Hr LA Lb _ Hz). }
  split; [split; [apply gen_A_c_eq|apply gen_b_c_eq]|]. split.
  - rewrite Hm, (@hw1_run_default T SC clock2 [p2; s] n) by auto.
    rewrite (Hw1_avx2_in_range (gen_A n) (gen_b2 n) Hr LA Lb _ Hz).
    unfold same_checksums, micros_report.
    destruct (vec_get _ _); split; reflexivity.
  - intros sel Hsel. rewrite Hm.
    rewrite (@hw1_run_selected T SC clock2 [p2; sel; s] n) by auto.
    cbv zeta. cbn [arg nth].
    rewrite (Hw1_avx2_in_range (gen_A n) (gen_b2 n) Hr LA Lb _ Hz).
    rewrite (Hw1_unrolled_in_range (gen_A n) (gen_b2 n) Hr LA Lb _ Hz).
    rewrite (Hw1_interchanged_in_range (gen_A n) (gen_b2 n) Hr LA Lb _ Hz).
    cbn [In] in Hsel. destruct Hsel as [<-|[<-|[<-|[]]]]; cbn [String.eqb];
      unfold same_checksums, micros_report;
      destruct (vec_get _ _); split; reflexivity.
Qed.

(** An instance. *)
Lemma MvC_and_hw1_same_problem_witness :
  same_checksums
    (run (MvCMain.main "Mv.c" 16 (heap_serving (fun _ _ => 1%Qc)) ticks 1%Qc
            ["Mv"; "3"]%string))
    (run (Hw1Main.main (fun _ => 0%Qc) ["hw1"; "3"]%string)).
Proof.
  refine (proj1 (proj2 (@MvC_and_hw1_same_problem Qc Qc_Scalar Qc_ExactArith
            "Mv.c" 16 (heap_serving (fun _ _ => 1%Qc)) ticks (fun _ => 0%Qc) 1%Qc
            "Mv"%string "hw1"%string "3"%string 3 _ _ _ _ _)));
    [reflexivity | unfold max_dim; lia | reflexivity | reflexivity | reflexivity].
Defined.
